(** * AVR servo controller (PCA9685): a shallow embedding of the sketch

    The sketch [AVR_ServoController_PCA9685.ino] follows [nservos] input
    pins with as many servos.  Each servo has two programmable end
    positions; four buttons edit them, and the table is written to the
    EEPROM once the buttons and the inputs have been quiet for a while.

    The globals of the sketch become the fields of the record [machine];
    the EEPROM is a finite map from addresses to bytes; the commands sent
    to the servo library and the calls of [delay] are appended to a log.
    What the sketch reads from the outside world ([digitalRead], [millis])
    is an argument of the function that reads it.  Serial debugging and
    the pin and servo wiring of [setup] issue no servo move and no delay,
    have no effect on the globals, and are left out. *)

From Stdlib Require Import ZArith Lia Bool List.
From stdpp Require Import base list gmap.

Local Open Scope Z_scope.

(** ** Machine integers *)

Module Int.

(** [uint8_t]: the value kept by a store into an 8-bit unsigned object. *)
Definition uint8_t (z : Z) : Z := z mod 256.

(** [unsigned long] on the AVR is 32 bits wide: the type of [millis()],
    and the type in which a mixed [unsigned long]/[long] operation is
    carried out. *)
Definition to_ulong (z : Z) : Z := z mod 4294967296.

(** [long] on the AVR is 32 bits wide, two's complement.  The conversion
    from [unsigned long] keeps the bit pattern.  A signed sum that leaves
    the range is undefined in C++; avr-gcc wraps it, and so does the
    model, but the theorems below stay away from that window. *)
Definition to_long (z : Z) : Z := (z + 2147483648) mod 4294967296 - 2147483648.

End Int.
Import Int.

(** ** Configuration constants ([#define]s of the sketch) *)

Definition INIT : Z := 0.
Definition MINPOSN : Z := 0.
Definition MAXPOSN : Z := 180.
Definition nservos : Z := 8.

(** [uint8_t controlPin[nservos] = {4,5,6,7,8,9,10,11}] *)
Definition controlPin : list Z := [4; 5; 6; 7; 8; 9; 10; 11].

(** ** Commands seen by the outside world *)

Inductive action : Type :=
  | StartEaseTo (s angle : Z)   (* servo[s].startEaseTo(angle): eased move *)
  | ServoWrite (s angle : Z)    (* servo[s].write(angle): immediate set *)
  | Delay (ms : Z).             (* delay(ms) *)

(** ** The globals *)

Record machine : Type := Machine {
  spos : list Z;          (* uint8_t spos[3][nservos], row after row *)
  activeServo : Z;        (* uint8_t *)
  activePos : Z;          (* uint8_t *)
  lastchange : Z;         (* long *)
  EEPROM : gmap Z Z;      (* the persistent store, byte per address *)
  trace : list action     (* commands issued so far, oldest first *)
}.

Definition set_spos (t : list Z) (m : machine) : machine :=
  Machine t (activeServo m) (activePos m) (lastchange m) (EEPROM m) (trace m).
Definition set_activeServo (v : Z) (m : machine) : machine :=
  Machine (spos m) v (activePos m) (lastchange m) (EEPROM m) (trace m).
Definition set_activePos (v : Z) (m : machine) : machine :=
  Machine (spos m) (activeServo m) v (lastchange m) (EEPROM m) (trace m).
Definition set_lastchange (v : Z) (m : machine) : machine :=
  Machine (spos m) (activeServo m) (activePos m) v (EEPROM m) (trace m).
Definition set_EEPROM (e : gmap Z Z) (m : machine) : machine :=
  Machine (spos m) (activeServo m) (activePos m) (lastchange m) e (trace m).
Definition emit (a : action) (m : machine) : machine :=
  Machine (spos m) (activeServo m) (activePos m) (lastchange m) (EEPROM m)
          (trace m ++ [a]).

(** ** The table [spos]

    [spos[r][c]] is the byte at offset [r * nservos + c] of the array.
    Row 0 holds the first positions, row 1 the second positions, row 2 the
    slot in use.  An access past the 24 bytes is undefined in C++: the
    sketch reads or changes whatever lies after the array.  The model
    reads 0 there and drops the store, so it stands for the sketch only
    where every access is inside the array.  That is so in every state
    that satisfies [wf] below (row 2 holds 0 or 1 and the cursor is
    valid), hence in every state reached from a store without the marker
    or with a table that satisfies the invariant. *)

Definition cell (r c : Z) : nat := Z.to_nat (r * nservos + c).

Definition spos_at (t : list Z) (r c : Z) : Z := default 0 (t !! cell r c).

Definition spos_upd (r c v : Z) (t : list Z) : list Z :=
  <[cell r c := uint8_t v]> t.

Definition spos_store (r c v : Z) (m : machine) : machine :=
  set_spos (spos_upd r c v (spos m)) m.

(** [sizeof(spos)] *)
Definition spos_size : nat := 24.

(** ** The EEPROM library *)

(** An erased cell reads 0xFF. *)
Definition EEPROM_read (a : Z) (e : gmap Z Z) : Z := default 255 (e !! a).

Definition EEPROM_write (a v : Z) (e : gmap Z Z) : gmap Z Z := <[a := v]> e.

(** [EEPROM.put(a, obj)]: the bytes of the object, in order, from [a] on. *)
Fixpoint EEPROM_put (a : Z) (bs : list Z) (e : gmap Z Z) : gmap Z Z :=
  match bs with
  | [] => e
  | b :: bs' => EEPROM_put (a + 1) bs' (EEPROM_write a b e)
  end.

(** [EEPROM.get(a, obj)]: as many bytes as the object has, from [a] on. *)
Fixpoint EEPROM_get (a : Z) (n : nat) (e : gmap Z Z) : list Z :=
  match n with
  | O => []
  | S n' => EEPROM_read a e :: EEPROM_get (a + 1) n' e
  end.

(** ** Loops

    A loop that runs its body once per element of a list: the servos
    0 .. nservos-1 of a [for (i = 0; i < nservos; i++)], or the readings of
    [millis()] made in the turns of a [while] on a held button. *)

Fixpoint for_each (body : Z -> machine -> machine) (l : list Z) (m : machine)
  : machine :=
  match l with
  | [] => m
  | i :: l' => for_each body l' (body i m)
  end.

Definition servos : list Z := seqZ 0 nservos.

(** [servo[i].startEaseTo( spos[spos[2][i]][i] )] *)
Definition ease_to_saved (i : Z) (m : machine) : machine :=
  emit (StartEaseTo i (spos_at (spos m) (spos_at (spos m) 2 i) i)) m.

(** ** [setup] *)

(** The globals as the C++ runtime leaves them before [setup]: zeroed. *)
Definition power_on (e : gmap Z Z) : machine :=
  Machine (replicate spos_size 0) 0 0 0 e [].

Definition setup_defaults (i : Z) (m : machine) : machine :=
  let m := spos_store 0 i ((MAXPOSN - MINPOSN) / 2 + 40) m in
  let m := spos_store 1 i ((MAXPOSN - MINPOSN) / 2 - 40) m in
  spos_store 2 i 0 m.

Definition setup (e : gmap Z Z) : machine :=
  let m := power_on e in
  let m := emit (Delay 2000) m in
  let mn := EEPROM_read 0 (EEPROM m) in
  let m :=
    if negb (mn =? 0xA5) || negb (INIT =? 0) then
      let m := set_EEPROM (EEPROM_write 0 0xA5 (EEPROM m)) m in
      let m := for_each setup_defaults servos m in
      set_EEPROM (EEPROM_put 1 (spos m) (EEPROM m)) m
    else m in
  let m := set_spos (EEPROM_get 1 spos_size (EEPROM m)) m in
  for_each ease_to_saved servos m.

(** ** [inputScan] *)

(** [digitalRead(pin)]: HIGH is 1, LOW is 0. *)
Definition digitalRead (level : Z -> bool) (pin : Z) : Z :=
  if level pin then 1 else 0.

(** The body of the loop of [inputScan] for servo [s]; [level] gives the
    pin levels and [clock s] is what [millis()] returns for servo [s]. *)
Definition inputScan_body (level : Z -> bool) (clock : Z -> Z) (s : Z)
    (m : machine) : machine :=
  if negb (digitalRead level (default 0 (controlPin !! Z.to_nat s))
           =? spos_at (spos m) 2 s) then
    let m := spos_store 2 s (if spos_at (spos m) 2 s =? 0 then 1 else 0) m in
    let m := ease_to_saved s m in
    set_lastchange (to_long (clock s)) m
  else m.

Definition inputScan (level : Z -> bool) (clock : Z -> Z) (m : machine)
  : machine :=
  for_each (inputScan_body level clock) servos m.

(** ** [loop] *)

(** One turn of [while(digitalRead(up)==0)]: the button reads pressed and
    [millis()] returns [now].  [delayt] is the local of [loop]. *)
Definition loop_up_body (now : Z) (md : machine * Z) : machine * Z :=
  let '(m, delayt) := md in
  let m := set_lastchange (to_long now) m in
  let m :=
    if spos_at (spos m) (activePos m) (activeServo m) <? MAXPOSN then
      spos_store (activePos m) (activeServo m)
                 (spos_at (spos m) (activePos m) (activeServo m) + 1) m
    else m in
  let m := emit (ServoWrite (activeServo m)
                   (spos_at (spos m) (activePos m) (activeServo m))) m in
  let delayt := uint8_t (delayt - 10) in
  let delayt := if delayt <? 50 then 50 else delayt in
  (emit (Delay delayt) m, delayt).

(** One turn of [while(digitalRead(down)==0)]. *)
Definition loop_down_body (now : Z) (md : machine * Z) : machine * Z :=
  let '(m, delayt) := md in
  let m := set_lastchange (to_long now) m in
  let m :=
    if spos_at (spos m) (activePos m) (activeServo m) >? MINPOSN then
      spos_store (activePos m) (activeServo m)
                 (spos_at (spos m) (activePos m) (activeServo m) - 1) m
    else m in
  let m := emit (ServoWrite (activeServo m)
                   (spos_at (spos m) (activePos m) (activeServo m))) m in
  let delayt := uint8_t (delayt - 10) in
  let delayt := if delayt <? 50 then 50 else delayt in
  (emit (Delay delayt) m, delayt).

(** A [while] loop on a held button: one turn per reading of [millis()]
    made while the button still reads pressed. *)
Fixpoint while_held (body : Z -> machine * Z -> machine * Z) (held : list Z)
    (md : machine * Z) : machine * Z :=
  match held with
  | [] => md
  | now :: held' => while_held body held' (body now md)
  end.

Definition loop_up := while_held loop_up_body.
Definition loop_down := while_held loop_down_body.

(** One turn of the inner [while(digitalRead(nextservo)==0)]. *)
Definition nextservo_hold (now : Z) (m : machine) : machine :=
  if to_ulong (now - to_ulong (lastchange m)) >? 2000
  then set_activeServo nservos m
  else m.

(** The [if(digitalRead(nextservo)==0)] block: [millis()] returns [now] on
    entry and the elements of [held] in the turns of the inner loop. *)
Definition loop_nextservo (now : Z) (held : list Z) (m : machine) : machine :=
  let m := set_lastchange (to_long now) m in
  let m := ease_to_saved (activeServo m) m in
  let m := for_each nextservo_hold held m in
  let m := set_activeServo (uint8_t (activeServo m + 1)) m in
  let m := if activeServo m >=? nservos then set_activeServo 0 m else m in
  let m := set_activePos (spos_at (spos m) 2 (activeServo m)) m in
  let m := emit (StartEaseTo (activeServo m)
                   (spos_at (spos m) (activePos m) (activeServo m))) m in
  emit (Delay 200) m.

(** The [if(digitalRead(nextposn)==0)] block. *)
Definition loop_nextposn (now : Z) (m : machine) : machine :=
  let m := set_lastchange (to_long now) m in
  let m := set_activePos (uint8_t (activePos m + 1)) m in
  let m := if activePos m >? 1 then set_activePos 0 m else m in
  let m := emit (StartEaseTo (activeServo m)
                   (spos_at (spos m) (activePos m) (activeServo m))) m in
  emit (Delay 200) m.

(** [lastchange!=0 && millis()>(lastchange+20000)]: the sum is a [long],
    converted to [unsigned long] for the comparison with [millis()]. *)
Definition save_due (now : Z) (m : machine) : bool :=
  negb (lastchange m =? 0)
  && (now >? to_ulong (to_long (lastchange m + 20000))).

(** The "update EEPROM after servo mods" block. *)
Definition loop_save (now : Z) (m : machine) : machine :=
  if save_due now m then
    let m := set_EEPROM (EEPROM_put 1 (spos m) (EEPROM m)) m in
    let m := set_lastchange 0 m in
    let m := set_activeServo 0 m in
    for_each ease_to_saved servos m
  else m.

(** What one pass of [loop] reads from the outside. *)
Record loop_input : Type := LoopInput {
  up_held : list Z;          (* millis() in each turn of the up loop *)
  down_held : list Z;        (* millis() in each turn of the down loop *)
  nextservo_pressed : option (Z * list Z);
    (* pressed: millis() on entry, and in each turn of the hold loop *)
  nextposn_pressed : option Z;   (* pressed: millis() on entry *)
  save_clock : Z;                (* millis() in the save test *)
  pin_level : Z -> bool;         (* level of each input pin *)
  scan_clock : Z -> Z            (* millis() for each servo in inputScan *)
}.

Definition loop (inp : loop_input) (m : machine) : machine :=
  let delayt := 200 in
  let '(m, delayt) := loop_up (up_held inp) (m, delayt) in
  let '(m, delayt) := loop_down (down_held inp) (m, delayt) in
  let m := match nextservo_pressed inp with
           | Some (now, held) => loop_nextservo now held m
           | None => m
           end in
  let m := match nextposn_pressed inp with
           | Some now => loop_nextposn now m
           | None => m
           end in
  let m := loop_save (save_clock inp) m in
  let m := inputScan (pin_level inp) (scan_clock inp) m in
  emit (Delay 100) m.

(** The sketch from power-on: [setup], then [loop] again and again. *)
Definition run (e : gmap Z Z) (inps : list loop_input) : machine :=
  foldl (fun m inp => loop inp m) (setup e) inps.

(** ** Vocabulary of the specification *)

(** The dirty marker is [lastchange] read with 0 as "no pending change". *)
Definition DirtyMarker (m : machine) : option Z :=
  if lastchange m =? 0 then None else Some (to_ulong (lastchange m)).

(** Time stamps whose quiet period ends before the 32-bit clock wraps and
    for which [lastchange + 20000] stays inside [long]. *)
Definition stamp_window (t : Z) : Prop :=
  t + 20000 < 2147483648 \/ (2147483648 <= t /\ t + 20000 < 4294967296).

(** The store holds the table. *)
Definition in_sync (m : machine) : Prop :=
  EEPROM_get 1 spos_size (EEPROM m) = spos m.

(** The invariant of the table, and of the edit cursor. *)
Definition in_range (v : Z) : bool := (MINPOSN <=? v) && (v <=? MAXPOSN).
Definition is_slot (v : Z) : bool := (v =? 0) || (v =? 1).

Definition positions_ok (t : list Z) : bool :=
  (length t =? spos_size)%nat
  && forallb (fun i => in_range (spos_at t 0 i) && in_range (spos_at t 1 i))
             servos.

Definition slots_ok (t : list Z) : bool :=
  forallb (fun i => is_slot (spos_at t 2 i)) servos.

Definition table_ok (t : list Z) : bool := positions_ok t && slots_ok t.

Definition cursor_ok (m : machine) : bool :=
  (0 <=? activeServo m) && (activeServo m <? nservos) && is_slot (activePos m).

Definition wf (m : machine) : bool := table_ok (spos m) && cursor_ok m.

(** The turns of the up and down loops, in the order they happen. *)
Inductive edit : Type :=
  | Increase (now : Z)
  | Decrease (now : Z).

Definition edit_body (ev : edit) (md : machine * Z) : machine * Z :=
  match ev with
  | Increase now => loop_up_body now md
  | Decrease now => loop_down_body now md
  end.

Fixpoint edits (es : list edit) (md : machine * Z) : machine * Z :=
  match es with
  | [] => md
  | ev :: es' => edits es' (edit_body ev md)
  end.

(** The test of the hold loop of the next-servo button, for a press
    stamped [lc]. *)
Definition held_too_long (lc : Z) (t : Z) : bool :=
  to_ulong (t - to_ulong lc) >? 2000.

(** Projections of the command log. *)
Definition delay_of (a : action) : list Z :=
  match a with Delay d => [d] | _ => [] end.

Definition delays (l : list action) : list Z := flat_map delay_of l.

Definition about_servo (s : Z) (a : action) : bool :=
  match a with
  | StartEaseTo s' _ | ServoWrite s' _ => s' =? s
  | Delay _ => false
  end.

Definition moves_of (s : Z) (l : list action) : list action :=
  List.filter (about_servo s) l.

(** The eased moves that put every servo of [l] on its saved position. *)
Definition resync (t : list Z) (l : list Z) : list action :=
  map (fun i => StartEaseTo i (spos_at t (spos_at t 2 i) i)) l.

(** The delays of [n] turns of a held-button loop entered with [d]. *)
Fixpoint ramp (d : Z) (n : nat) : list Z :=
  match n with
  | O => []
  | S n' => Z.max 50 (d - 10) :: ramp (Z.max 50 (d - 10)) n'
  end.

(** A reading of [millis()] other than 0. *)
Definition stamp_ok (t : Z) : bool := (0 <? t) && (t <? 4294967296).

(** The readings under which the table is changed: the turns of the up and
    down loops, and [inputScan]. *)
Definition edit_stamps_ok (inp : loop_input) : bool :=
  forallb stamp_ok (up_held inp) && forallb stamp_ok (down_held inp)
  && forallb (fun s => stamp_ok (scan_clock inp s)) servos.

(** Every reading that is stored into [lastchange]: the above, and the
    presses of the next-servo and next-position buttons. *)
Definition all_stamps_ok (inp : loop_input) : bool :=
  edit_stamps_ok inp
  && match nextservo_pressed inp with
     | Some (now, _) => stamp_ok now
     | None => true
     end
  && match nextposn_pressed inp with
     | Some now => stamp_ok now
     | None => true
     end.

(** The store agrees with the table whenever no change is pending. *)
Definition synced (m : machine) : Prop :=
  length (spos m) = spos_size /\ (lastchange m = 0 -> in_sync m).

(** The reading of [millis()] made by a turn of the up or down loop. *)
Definition edit_stamp (ev : edit) : Z :=
  match ev with Increase now | Decrease now => now end.

(** ** Sample states and inputs *)

(** Servo 3 follows a high input; the operator has moved the cursor to
    servo 3, whose slot in use is 1, and the last change was stamped
    5000. *)
Definition editing_servo_3 : machine :=
  Machine (replicate 8 130 ++ replicate 8 50 ++ [0; 0; 0; 1; 0; 0; 0; 0])
          3 1 5000 {[ 0 := 0xA5 ]} [].

(** A store with the marker and nothing else written. *)
Definition marker_only : gmap Z Z := {[ 0 := 0xA5 ]}.

(** A pass of [loop], 100 time-units before the clock wraps, in which the
    input of servo 0 has gone high and no button is touched. *)
Definition pass_before_wrap : loop_input :=
  LoopInput [] [] None None 4294967196 (fun pin => pin =? 4)
            (fun _ => 4294967196).

(** The next pass: the next-position button reads pressed just when
    [millis()] has wrapped to 0. *)
Definition pass_at_wrap : loop_input :=
  LoopInput [] [] None (Some 0) 200 (fun pin => pin =? 4) (fun _ => 200).

(** A pass with a short press of the next-servo button at [now], the
    inputs all low. *)
Definition pass_next_servo (now : Z) : loop_input :=
  LoopInput [] [] (Some (now, [now + 1; now + 150])) None (now + 350)
            (fun _ => false) (fun _ => now + 350).

(** A pass with a press of the next-position button at [now], the inputs
    all low. *)
Definition pass_next_position (now : Z) : loop_input :=
  LoopInput [] [] None (Some now) (now + 200)
            (fun _ => false) (fun _ => now + 200).

(** A pass in which the up button is held for two turns and the inputs
    are all low. *)
Definition pass_up_twice : loop_input :=
  LoopInput [5000; 5190] [] None None 5370 (fun _ => false) (fun _ => 5370).

(** A later pass, with no button and no input change, more than 20000
    time-units after the last turn of the up loop. *)
Definition pass_quiet_late : loop_input :=
  LoopInput [] [] None None 26000 (fun _ => false) (fun _ => 26000).

(** A state whose last change was stamped 5000, as after an edit 5 s
    after power-on. *)
Definition edited_at_5000 : machine :=
  Machine (replicate 8 130 ++ replicate 8 50 ++ replicate 8 0)
          0 0 5000 {[ 0 := 0xA5 ]} [].

(** ** Further vocabulary *)

(** The button part of a pass of [loop]: everything before the save
    test. *)
Definition loop_buttons (inp : loop_input) (m : machine) : machine :=
  let '(m, delayt) := loop_up (up_held inp) (m, 200) in
  let '(m, delayt) := loop_down (down_held inp) (m, delayt) in
  let m := match nextservo_pressed inp with
           | Some (now, held) => loop_nextservo now held m
           | None => m
           end in
  match nextposn_pressed inp with
  | Some now => loop_nextposn now m
  | None => m
  end.





(** The input pin of servo [s]. *)
Definition pin_of (s : Z) : Z := default 0 (controlPin !! Z.to_nat s).

(** Every input reads the level of the slot its servo is on. *)
Definition inputs_match (level : Z -> bool) (t : list Z) : bool :=
  forallb (fun s => digitalRead level (pin_of s) =? spos_at t 2 s) servos.

(** A command the servo library can carry out: an existing servo and an
    angle between [MINPOSN] and [MAXPOSN]. *)
Definition command_ok (a : action) : bool :=
  match a with
  | StartEaseTo s angle | ServoWrite s angle =>
      (0 <=? s) && (s <? nservos) && in_range angle
  | Delay _ => true
  end.

(** Expose the record built by a chain of field updates, leaving the
    store and the table folded. *)
Ltac proj :=
  cbv beta iota zeta delta
    [ease_to_saved spos_store emit set_spos set_activeServo set_activePos
     set_lastchange set_EEPROM power_on
     spos activeServo activePos lastchange EEPROM trace].

(** * Basic facts *)

Section Integers.

Lemma to_ulong_to_long (z : Z) : to_ulong (to_long z) = to_ulong z.
Proof.
  unfold to_ulong, to_long.
  rewrite Zminus_mod_idemp_l. f_equal. lia.
Qed.

Lemma to_ulong_small (z : Z) : 0 <= z < 4294967296 -> to_ulong z = z.
Proof. intros H. unfold to_ulong. now apply Z.mod_small. Qed.

Lemma to_ulong_shift (z k : Z) : to_ulong (z + k) = to_ulong (to_ulong z + k).
Proof. unfold to_ulong. now rewrite Zplus_mod_idemp_l. Qed.

Lemma to_long_nonzero (t : Z) : stamp_ok t = true -> to_long t <> 0.
Proof.
  unfold stamp_ok, to_long. intros H.
  apply andb_true_iff in H as [H1 H2].
  apply Z.ltb_lt in H1, H2.
  destruct (Z.lt_ge_cases t 2147483648).
  - rewrite Z.mod_small by lia. lia.
  - replace (t + 2147483648) with (t - 2147483648 + 1 * 4294967296) by lia.
    rewrite Z.mod_add by lia. rewrite Z.mod_small by lia. lia.
Qed.

End Integers.

Section Table.

Lemma length_spos_upd (r c v : Z) (t : list Z) :
  length (spos_upd r c v t) = length t.
Proof. unfold spos_upd. apply length_insert. Qed.

Lemma cell_inj (r c r' c' : Z) :
  0 <= r -> 0 <= r' -> 0 <= c < nservos -> 0 <= c' < nservos ->
  cell r c = cell r' c' -> r = r' /\ c = c'.
Proof.
  unfold cell, nservos. intros Hr Hr' Hc Hc' H.
  apply Z2Nat.inj in H; lia.
Qed.

Lemma spos_at_upd_eq (r c v : Z) (t : list Z) :
  (cell r c < length t)%nat -> spos_at (spos_upd r c v t) r c = uint8_t v.
Proof.
  intros H. unfold spos_at, spos_upd.
  now rewrite list_lookup_insert_eq.
Qed.

Lemma spos_at_upd_ne (r c v : Z) (t : list Z) (r' c' : Z) :
  cell r c <> cell r' c' -> spos_at (spos_upd r c v t) r' c' = spos_at t r' c'.
Proof.
  intros H. unfold spos_at, spos_upd.
  now rewrite list_lookup_insert_ne.
Qed.

Lemma cell_lt (r c : Z) (t : list Z) :
  length t = spos_size -> 0 <= r < 3 -> 0 <= c < nservos ->
  (cell r c < length t)%nat.
Proof.
  unfold cell, nservos, spos_size. intros -> Hr Hc. lia.
Qed.

End Table.

Section Store.

Lemma EEPROM_read_write_eq (a v : Z) (e : gmap Z Z) :
  EEPROM_read a (EEPROM_write a v e) = v.
Proof. unfold EEPROM_read, EEPROM_write. now rewrite lookup_insert_eq. Qed.

Lemma EEPROM_read_write_ne (a b v : Z) (e : gmap Z Z) :
  a <> b -> EEPROM_read b (EEPROM_write a v e) = EEPROM_read b e.
Proof.
  intros H. unfold EEPROM_read, EEPROM_write. now rewrite lookup_insert_ne.
Qed.

(** [put] leaves the cells below its first address alone. *)
Lemma EEPROM_read_put_below (bs : list Z) :
  forall (a b : Z) (e : gmap Z Z),
    b < a -> EEPROM_read b (EEPROM_put a bs e) = EEPROM_read b e.
Proof.
  induction bs as [|x bs IH]; intros a b e Hlt; simpl.
  - reflexivity.
  - rewrite IH by lia. apply EEPROM_read_write_ne. lia.
Qed.

(** Reading back what was just put gives the object. *)
Lemma EEPROM_get_put (bs : list Z) :
  forall (a : Z) (e : gmap Z Z),
    EEPROM_get a (length bs) (EEPROM_put a bs e) = bs.
Proof.
  induction bs as [|x bs IH]; intros a e; simpl.
  - reflexivity.
  - rewrite IH. f_equal.
    rewrite EEPROM_read_put_below by lia.
    apply EEPROM_read_write_eq.
Qed.

End Store.

Section Loops.

Lemma for_each_app (body : Z -> machine -> machine) (l1 l2 : list Z) :
  forall m, for_each body (l1 ++ l2) m = for_each body l2 (for_each body l1 m).
Proof.
  induction l1 as [|i l1 IH]; intros m; simpl; [reflexivity | apply IH].
Qed.

(** Putting a list of servos on their saved positions only extends the
    log. *)
Lemma for_each_ease_to_saved (l : list Z) :
  forall m,
    for_each ease_to_saved l m =
    Machine (spos m) (activeServo m) (activePos m) (lastchange m) (EEPROM m)
            (trace m ++ resync (spos m) l).
Proof.
  induction l as [|i l IH]; intros m; simpl.
  - rewrite app_nil_r. now destruct m.
  - rewrite IH. unfold ease_to_saved, emit; simpl.
    now rewrite <- app_assoc.
Qed.

End Loops.

(** * The persistence scheduler *)

Section Save.

Lemma save_due_threshold (m : machine) (t now : Z) :
  DirtyMarker m = Some t -> stamp_window t ->
  save_due now m = true <-> now > t + 20000.
Proof.
  unfold DirtyMarker, save_due. intros Hd Hw.
  destruct (lastchange m =? 0) eqn:E; [discriminate|].
  injection Hd as Ht. simpl.
  rewrite to_ulong_to_long, to_ulong_shift, Ht.
  rewrite to_ulong_small.
  - rewrite Z.gtb_ltb, Z.ltb_lt. lia.
  - assert (0 <= t < 4294967296).
    { subst t. unfold to_ulong. apply Z.mod_pos_bound. lia. }
    unfold stamp_window in Hw. lia.
Qed.

Lemma save_idle (m : machine) (now : Z) :
  DirtyMarker m = None -> save_due now m = false.
Proof.
  unfold DirtyMarker, save_due.
  destruct (lastchange m =? 0); [reflexivity | discriminate].
Qed.

Lemma loop_save_commit (m : machine) (now : Z) :
  save_due now m = true ->
  loop_save now m =
  Machine (spos m) 0 (activePos m) 0 (EEPROM_put 1 (spos m) (EEPROM m))
          (trace m ++ resync (spos m) servos).
Proof.
  intros H. unfold loop_save. rewrite H.
  now rewrite for_each_ease_to_saved.
Qed.

Lemma loop_save_skip (m : machine) (now : Z) :
  save_due now m = false -> loop_save now m = m.
Proof. intros H. unfold loop_save. now rewrite H. Qed.

(** Why [stamp_window]: for a change stamped in the last 20000
    time-units before the clock wraps, [lastchange + 20000] converts to a
    small [unsigned long] and the save test holds at once. *)
Lemma save_due_early_before_wrap :
  let m := set_lastchange (to_long 4294960000) edited_at_5000 in
  DirtyMarker m = Some 4294960000 /\ save_due 4294960100 m = true.
Proof. vm_compute. split; reflexivity. Qed.

(** C1, as stated, fails: exactly 20000 time-units after the change the
    save test is still false; the source compares with [>]. *)
Lemma save_not_due_at_quiet_period :
  ~ (forall (m : machine) (t now : Z),
       DirtyMarker m = Some t ->
       (save_due now m = true <-> now - t >= 20000)).
Proof.
  intros H.
  specialize (H edited_at_5000 5000 25000 eq_refl).
  destruct H as [_ H]. specialize (H ltac:(lia)).
  vm_compute in H. discriminate.
Qed.

(** C1 (amended): with [DirtyMarker = Some t], the save block of [loop]
    runs at time [now] if and only if [now - t > 20000]; when it runs it
    puts the table at offset 1 of the store, clears the marker, sets
    [activeServo] to 0 and starts an eased move of every servo [s] to
    [spos[spos[2][s]][s]]; when it does not run, and in particular whenever
    the marker is [None], nothing changes. *)
Theorem loop_save_contract (m : machine) (now : Z) :
  (DirtyMarker m = None -> loop_save now m = m) /\
  (forall t, DirtyMarker m = Some t -> stamp_window t ->
     (save_due now m = true <-> now - t > 20000) /\
     (now - t <= 20000 -> loop_save now m = m) /\
     (now - t > 20000 ->
      let m' := loop_save now m in
      EEPROM m' = EEPROM_put 1 (spos m) (EEPROM m) /\
      (length (spos m) = spos_size -> in_sync m') /\
      DirtyMarker m' = None /\
      activeServo m' = 0 /\
      spos m' = spos m /\
      trace m' = trace m ++ resync (spos m) servos)).
Proof.
  split.
  - intros H. apply loop_save_skip. now apply save_idle.
  - intros t Hd Hw.
    pose proof (save_due_threshold m t now Hd Hw) as Hiff.
    split; [|split].
    + rewrite Hiff. lia.
    + intros Hle. apply loop_save_skip.
      apply not_true_is_false. intros E. apply Hiff in E. lia.
    + intros Hgt. assert (E : save_due now m = true) by (apply Hiff; lia).
      cbv zeta. rewrite (loop_save_commit m now E). simpl.
      repeat split; try reflexivity.
      intros Hlen. unfold in_sync; simpl.
      pose proof (EEPROM_get_put (spos m) 1 (EEPROM m)) as R.
      rewrite Hlen in R. exact R.
Qed.

Lemma loop_save_contract_witness :
  DirtyMarker edited_at_5000 = Some 5000 /\
  stamp_window 5000 /\
  (save_due 25001 edited_at_5000 = true <-> 25001 - 5000 > 20000) /\
  activeServo (loop_save 25001 edited_at_5000) = 0.
Proof.
  assert (Hd : DirtyMarker edited_at_5000 = Some 5000) by reflexivity.
  assert (Hw : stamp_window 5000) by (unfold stamp_window; lia).
  destruct (loop_save_contract edited_at_5000 25001) as [_ H].
  destruct (H 5000 Hd Hw) as (Hiff & _ & Hrun).
  assert (Hgt : 25001 - 5000 > 20000) by lia.
  destruct (Hrun Hgt) as (_ & _ & _ & Hs & _).
  split; [exact Hd | split; [exact Hw | split; [exact Hiff | exact Hs]]].
Defined.

End Save.

(** * The table invariant, in logical form *)

Section Invariant.

Lemma in_servos (i : Z) : In i servos <-> 0 <= i < nservos.
Proof.
  unfold servos. rewrite <- list_elem_of_In, elem_of_seqZ. unfold nservos. lia.
Qed.

Lemma in_range_spec (v : Z) : in_range v = true <-> MINPOSN <= v <= MAXPOSN.
Proof. unfold in_range. rewrite andb_true_iff, !Z.leb_le. tauto. Qed.

Lemma is_slot_spec (v : Z) : is_slot v = true <-> v = 0 \/ v = 1.
Proof. unfold is_slot. rewrite orb_true_iff, !Z.eqb_eq. tauto. Qed.

Lemma positions_ok_spec (t : list Z) :
  positions_ok t = true <->
  length t = spos_size /\
  forall r c, 0 <= r < 2 -> 0 <= c < nservos ->
              MINPOSN <= spos_at t r c <= MAXPOSN.
Proof.
  unfold positions_ok.
  rewrite andb_true_iff, Nat.eqb_eq, forallb_forall.
  split; intros [Hl H]; split; try exact Hl.
  - intros r c Hr Hc. apply in_servos, H, andb_true_iff in Hc as [H0 H1].
    apply in_range_spec in H0, H1.
    assert (r = 0 \/ r = 1) as [-> | ->] by lia; assumption.
  - intros i Hi. apply in_servos in Hi.
    apply andb_true_iff; split; apply in_range_spec, H; lia.
Qed.

Lemma slots_ok_spec (t : list Z) :
  slots_ok t = true <->
  forall c, 0 <= c < nservos -> spos_at t 2 c = 0 \/ spos_at t 2 c = 1.
Proof.
  unfold slots_ok. rewrite forallb_forall.
  split; intros H c Hc.
  - apply is_slot_spec, H, in_servos, Hc.
  - apply is_slot_spec, H, in_servos, Hc.
Qed.

Lemma cursor_ok_spec (m : machine) :
  cursor_ok m = true <->
  0 <= activeServo m < nservos /\ (activePos m = 0 \/ activePos m = 1).
Proof.
  unfold cursor_ok.
  rewrite !andb_true_iff, Z.leb_le, Z.ltb_lt, is_slot_spec. tauto.
Qed.

Lemma uint8_t_small (v : Z) : 0 <= v < 256 -> uint8_t v = v.
Proof. intros H. unfold uint8_t. now apply Z.mod_small. Qed.

(** A store of a position in range keeps the positions in range. *)
Lemma positions_ok_upd (t : list Z) (r c v : Z) :
  positions_ok t = true -> 0 <= r < 2 -> 0 <= c < nservos ->
  MINPOSN <= v <= MAXPOSN ->
  positions_ok (spos_upd r c v t) = true.
Proof.
  rewrite !positions_ok_spec. intros [Hl H] Hr Hc Hv.
  split; [now rewrite length_spos_upd|].
  intros r' c' Hr' Hc'.
  destruct (decide (cell r c = cell r' c')) as [E | E].
  - apply cell_inj in E as [<- <-]; try lia.
    rewrite spos_at_upd_eq by (apply cell_lt; lia).
    rewrite uint8_t_small; unfold MINPOSN, MAXPOSN in *; lia.
  - rewrite spos_at_upd_ne by exact E. now apply H.
Qed.

(** A store into row 2 leaves the positions alone. *)
Lemma positions_ok_upd_slot (t : list Z) (c v : Z) :
  positions_ok t = true -> 0 <= c < nservos ->
  positions_ok (spos_upd 2 c v t) = true.
Proof.
  rewrite !positions_ok_spec. intros [Hl H] Hc.
  split; [now rewrite length_spos_upd|].
  intros r' c' Hr' Hc'.
  rewrite spos_at_upd_ne; [now apply H|].
  intros E. apply cell_inj in E; lia.
Qed.

(** A store into rows 0 or 1 leaves the slots alone. *)
Lemma slots_ok_upd_pos (t : list Z) (r c v : Z) :
  slots_ok t = true -> 0 <= r < 2 -> 0 <= c < nservos ->
  slots_ok (spos_upd r c v t) = true.
Proof.
  rewrite !slots_ok_spec. intros H Hr Hc c' Hc'.
  rewrite spos_at_upd_ne; [now apply H|].
  intros E. apply cell_inj in E; lia.
Qed.

Lemma slots_ok_upd_slot (t : list Z) (c v : Z) :
  slots_ok t = true -> length t = spos_size -> 0 <= c < nservos ->
  v = 0 \/ v = 1 ->
  slots_ok (spos_upd 2 c v t) = true.
Proof.
  rewrite !slots_ok_spec. intros H Hl Hc Hv c' Hc'.
  destruct (decide (cell 2 c = cell 2 c')) as [E | E].
  - apply cell_inj in E as [_ <-]; try lia.
    rewrite spos_at_upd_eq by (apply cell_lt; lia).
    destruct Hv as [-> | ->]; [left | right]; reflexivity.
  - rewrite spos_at_upd_ne by exact E. now apply H.
Qed.

End Invariant.

(** * The up and down buttons *)

Section Edit.

(** The delay variable after one more turn. *)
Lemma next_delay (d : Z) :
  50 <= d <= 200 ->
  (if uint8_t (d - 10) <? 50 then 50 else uint8_t (d - 10)) = Z.max 50 (d - 10).
Proof.
  intros H. rewrite uint8_t_small by lia.
  destruct (d - 10 <? 50) eqn:E.
  - apply Z.ltb_lt in E. lia.
  - apply Z.ltb_ge in E. lia.
Qed.

(** What one turn of the up loop leaves. *)
Lemma loop_up_body_eq (now : Z) (m : machine) (d : Z) :
  let v := spos_at (spos m) (activePos m) (activeServo m) in
  let t' := if v <? MAXPOSN
            then spos_upd (activePos m) (activeServo m) (v + 1) (spos m)
            else spos m in
  let d' := if uint8_t (d - 10) <? 50 then 50 else uint8_t (d - 10) in
  loop_up_body now (m, d) =
  (Machine t' (activeServo m) (activePos m) (to_long now) (EEPROM m)
           (trace m ++ [ServoWrite (activeServo m)
                          (spos_at t' (activePos m) (activeServo m));
                        Delay d']), d').
Proof.
  destruct m as [t sv ps lc e tr]. unfold loop_up_body. proj.
  destruct (spos_at t ps sv <? MAXPOSN); proj; now rewrite <- app_assoc.
Qed.

(** What one turn of the down loop leaves. *)
Lemma loop_down_body_eq (now : Z) (m : machine) (d : Z) :
  let v := spos_at (spos m) (activePos m) (activeServo m) in
  let t' := if v >? MINPOSN
            then spos_upd (activePos m) (activeServo m) (v - 1) (spos m)
            else spos m in
  let d' := if uint8_t (d - 10) <? 50 then 50 else uint8_t (d - 10) in
  loop_down_body now (m, d) =
  (Machine t' (activeServo m) (activePos m) (to_long now) (EEPROM m)
           (trace m ++ [ServoWrite (activeServo m)
                          (spos_at t' (activePos m) (activeServo m));
                        Delay d']), d').
Proof.
  destruct m as [t sv ps lc e tr]. unfold loop_down_body. proj.
  destruct (spos_at t ps sv >? MINPOSN); proj; now rewrite <- app_assoc.
Qed.

Lemma edit_body_cursor (ev : edit) (m : machine) (d : Z) :
  activeServo (fst (edit_body ev (m, d))) = activeServo m /\
  activePos (fst (edit_body ev (m, d))) = activePos m /\
  EEPROM (fst (edit_body ev (m, d))) = EEPROM m.
Proof.
  destruct ev as [now | now]; cbn [edit_body].
  - now rewrite loop_up_body_eq.
  - now rewrite loop_down_body_eq.
Qed.

Lemma edit_body_positions (ev : edit) (m : machine) (d : Z) :
  positions_ok (spos m) = true -> cursor_ok m = true ->
  positions_ok (spos (fst (edit_body ev (m, d)))) = true.
Proof.
  intros Hp Hc. pose proof Hc as Hc'.
  apply cursor_ok_spec in Hc' as [Hs Ha].
  assert (Hr : 0 <= activePos m < 2) by lia.
  pose proof (proj1 (positions_ok_spec _) Hp) as [_ Hv].
  specialize (Hv _ _ Hr Hs). unfold MINPOSN, MAXPOSN in Hv.
  destruct ev as [now | now]; cbn [edit_body].
  - rewrite loop_up_body_eq; simpl.
    destruct (_ <? MAXPOSN) eqn:E; [|exact Hp].
    apply Z.ltb_lt in E. unfold MAXPOSN in E.
    apply positions_ok_upd; unfold MINPOSN, MAXPOSN; try assumption; lia.
  - rewrite loop_down_body_eq; simpl.
    destruct (_ >? MINPOSN) eqn:E; [|exact Hp].
    rewrite Z.gtb_ltb in E. apply Z.ltb_lt in E. unfold MINPOSN in E.
    apply positions_ok_upd; unfold MINPOSN, MAXPOSN; try assumption; lia.
Qed.

Lemma edit_body_slots (ev : edit) (m : machine) (d : Z) :
  slots_ok (spos m) = true -> cursor_ok m = true ->
  slots_ok (spos (fst (edit_body ev (m, d)))) = true.
Proof.
  intros Hp Hc. apply cursor_ok_spec in Hc as [Hs Ha].
  assert (Hr : 0 <= activePos m < 2) by lia.
  destruct ev as [now | now]; cbn [edit_body].
  - rewrite loop_up_body_eq; simpl.
    destruct (_ <? MAXPOSN); [|exact Hp].
    now apply slots_ok_upd_pos.
  - rewrite loop_down_body_eq; simpl.
    destruct (_ >? MINPOSN); [|exact Hp].
    now apply slots_ok_upd_pos.
Qed.

Lemma edit_body_cursor_ok (ev : edit) (m : machine) (d : Z) :
  cursor_ok m = true -> cursor_ok (fst (edit_body ev (m, d))) = true.
Proof.
  destruct (edit_body_cursor ev m d) as (Hs & Ha & _).
  unfold cursor_ok. now rewrite Hs, Ha.
Qed.

Lemma edits_positions (es : list edit) :
  forall md,
    positions_ok (spos (fst md)) = true -> cursor_ok (fst md) = true ->
    positions_ok (spos (fst (edits es md))) = true
    /\ cursor_ok (fst (edits es md)) = true.
Proof.
  induction es as [|ev es IH]; intros [m d] Hp Hc; cbn [edits fst] in *.
  - now split.
  - destruct (edit_body ev (m, d)) as [m1 d1] eqn:E.
    apply IH.
    + change m1 with (fst (m1, d1)). rewrite <- E.
      now apply edit_body_positions.
    + change m1 with (fst (m1, d1)). rewrite <- E.
      now apply edit_body_cursor_ok.
Qed.

Lemma edits_slots (es : list edit) :
  forall md,
    slots_ok (spos (fst md)) = true -> cursor_ok (fst md) = true ->
    slots_ok (spos (fst (edits es md))) = true.
Proof.
  induction es as [|ev es IH]; intros [m d] Hp Hc; cbn [edits fst] in *.
  - assumption.
  - destruct (edit_body ev (m, d)) as [m1 d1] eqn:E.
    apply IH.
    + change m1 with (fst (m1, d1)). rewrite <- E.
      now apply edit_body_slots.
    + change m1 with (fst (m1, d1)). rewrite <- E.
      now apply edit_body_cursor_ok.
Qed.

Lemma edits_app (es1 es2 : list edit) :
  forall md, edits (es1 ++ es2) md = edits es2 (edits es1 md).
Proof.
  induction es1 as [|ev es1 IH]; intros md; simpl; [reflexivity | apply IH].
Qed.

Lemma loop_up_edits (ups : list Z) :
  forall md, loop_up ups md = edits (map Increase ups) md.
Proof.
  induction ups as [|now ups IH]; intros md; simpl; [reflexivity | apply IH].
Qed.

Lemma loop_down_edits (downs : list Z) :
  forall md, loop_down downs md = edits (map Decrease downs) md.
Proof.
  induction downs as [|now downs IH]; intros md; simpl;
    [reflexivity | apply IH].
Qed.

(** C2: from a table whose positions lie in [MINPOSN, MAXPOSN], with the
    cursor on any servo and either slot, every sequence of turns of the up
    and down loops leaves all positions in [MINPOSN, MAXPOSN]; an increase
    at [MAXPOSN] and a decrease at [MINPOSN] leave the table as it is,
    while an increase below [MAXPOSN] adds one and a decrease above
    [MINPOSN] takes one off. *)
Theorem edits_stay_in_range (es : list edit) (m : machine) (d : Z) :
  positions_ok (spos m) = true -> cursor_ok m = true ->
  (forall r c, 0 <= r < 2 -> 0 <= c < nservos ->
     MINPOSN <= spos_at (spos (fst (edits es (m, d)))) r c <= MAXPOSN) /\
  (forall now,
     let v := spos_at (spos m) (activePos m) (activeServo m) in
     let m' := fst (loop_up_body now (m, d)) in
     (v = MAXPOSN -> spos m' = spos m) /\
     (v < MAXPOSN ->
      spos_at (spos m') (activePos m) (activeServo m) = v + 1)) /\
  (forall now,
     let v := spos_at (spos m) (activePos m) (activeServo m) in
     let m' := fst (loop_down_body now (m, d)) in
     (v = MINPOSN -> spos m' = spos m) /\
     (v > MINPOSN ->
      spos_at (spos m') (activePos m) (activeServo m) = v - 1)).
Proof.
  intros Hp Hc.
  pose proof Hc as Hc'. apply cursor_ok_spec in Hc' as [Hs Ha].
  assert (Hr : 0 <= activePos m < 2) by lia.
  pose proof (proj1 (positions_ok_spec _) Hp) as [Hl Hv].
  specialize (Hv _ _ Hr Hs). unfold MINPOSN, MAXPOSN in Hv.
  split; [|split].
  - destruct (edits_positions es (m, d) Hp Hc) as [H _].
    now apply positions_ok_spec in H as [_ H].
  - intros now v m'. subst v m'. rewrite loop_up_body_eq; simpl. split.
    + intros ->. now rewrite Z.ltb_irrefl.
    + intros Hlt. rewrite (proj2 (Z.ltb_lt _ _) Hlt).
      rewrite spos_at_upd_eq by (apply cell_lt; lia).
      apply uint8_t_small. unfold MAXPOSN in Hlt. lia.
  - intros now v m'. subst v m'. rewrite loop_down_body_eq; simpl. split.
    + intros ->. reflexivity.
    + intros Hgt. rewrite Z.gtb_ltb, (proj2 (Z.ltb_lt _ _)) by lia.
      rewrite spos_at_upd_eq by (apply cell_lt; lia).
      apply uint8_t_small. unfold MINPOSN in Hgt. lia.
Qed.

End Edit.

Section EditWitness.

Lemma edits_stay_in_range_witness :
  positions_ok (spos edited_at_5000) = true /\
  cursor_ok edited_at_5000 = true /\
  spos_at (spos (fst (edits (map Increase (seqZ 6000 60))
                            (edited_at_5000, 200)))) 0 0 <= MAXPOSN.
Proof.
  split; [reflexivity | split; [reflexivity|]].
  destruct (edits_stay_in_range (map Increase (seqZ 6000 60))
              edited_at_5000 200 eq_refl eq_refl) as [H _].
  apply H; unfold nservos; lia.
Defined.

End EditWitness.

(** * The repeat delays of a held button *)

Section Delays.

Lemma delays_app (l1 l2 : list action) :
  delays (l1 ++ l2) = delays l1 ++ delays l2.
Proof. unfold delays. apply flat_map_app. Qed.

Lemma edit_body_delay (ev : edit) (m : machine) (d : Z) :
  50 <= d <= 200 ->
  snd (edit_body ev (m, d)) = Z.max 50 (d - 10) /\
  delays (trace (fst (edit_body ev (m, d)))) =
  delays (trace m) ++ [Z.max 50 (d - 10)].
Proof.
  intros Hd. destruct ev as [now | now]; cbn [edit_body].
  - rewrite loop_up_body_eq; simpl.
    rewrite delays_app, next_delay by exact Hd. now split.
  - rewrite loop_down_body_eq; simpl.
    rewrite delays_app, next_delay by exact Hd. now split.
Qed.

Lemma edits_delays (es : list edit) :
  forall m d,
    50 <= d <= 200 ->
    delays (trace (fst (edits es (m, d)))) =
    delays (trace m) ++ ramp d (length es).
Proof.
  induction es as [|ev es IH]; intros m d Hd; cbn [edits length ramp].
  - now rewrite app_nil_r.
  - destruct (edit_body_delay ev m d Hd) as [Hs Ht].
    destruct (edit_body ev (m, d)) as [m1 d1] eqn:E.
    cbn [fst snd] in Hs, Ht. subst d1.
    rewrite IH by lia. rewrite Ht, <- app_assoc. reflexivity.
Qed.

Lemma length_ramp (n : nat) : forall d, length (ramp d n) = n.
Proof.
  induction n as [|n IH]; intros d; simpl; [reflexivity | now rewrite IH].
Qed.

(** The ramp in closed form. *)
Lemma ramp_lookup (n : nat) :
  forall (d : Z) (k : nat),
    50 <= d -> (k < n)%nat ->
    ramp d n !! k = Some (Z.max 50 (d - 10 * (Z.of_nat k + 1))).
Proof.
  induction n as [|n IH]; intros d k Hd Hk; [lia|].
  destruct k as [|k]; cbn [ramp].
  - simpl. first [reflexivity | f_equal; lia].
  - change ((?x :: ?l) !! S k) with (l !! k).
    rewrite IH by lia. f_equal. lia.
Qed.

(** From one delay to the next. *)
Lemma ramp_step (n : nat) :
  forall (d : Z) (k : nat) (x y : Z),
    50 <= d ->
    ramp d n !! k = Some x -> ramp d n !! S k = Some y ->
    50 <= y <= x /\ y = Z.max 50 (x - 10).
Proof.
  intros d k x y Hd Hx Hy.
  assert (Hk : (S k < n)%nat).
  { apply lookup_lt_Some in Hy. now rewrite length_ramp in Hy. }
  rewrite ramp_lookup in Hx, Hy by lia.
  injection Hx as <-. injection Hy as <-. lia.
Qed.

(** C6, as stated, fails: the first delay of a held up button is 190, not
    200; [delayt] is reduced before it is first used. *)
Lemma first_repeat_delay_is_not_200 :
  ~ (forall (ups : list Z) (m : machine),
       delays (trace (fst (loop_up ups (m, 200)))) =
       delays (trace m)
       ++ map (fun k => Z.max 50 (200 - 10 * k))
              (seqZ 0 (Z.of_nat (length ups)))).
Proof.
  intros H. specialize (H [6000] edited_at_5000).
  vm_compute in H. discriminate.
Qed.

(** C6 (amended): in one pass of [loop], the delays made by the turns of
    the up loop followed by those of the down loop are 190, 180, ... down to
    50 and then 50 for ever: the [k]-th delay (from 0) is
    [max 50 (200 - 10 * (k + 1))], each delay is the one before less 10 but
    not less than 50, so the sequence never rises. *)
Theorem held_button_delays (ups downs : list Z) (m : machine) :
  exists ds : list Z,
    delays (trace (fst (loop_down downs (loop_up ups (m, 200))))) =
    delays (trace m) ++ ds /\
    length ds = (length ups + length downs)%nat /\
    (forall k, (k < length ds)%nat ->
       ds !! k = Some (Z.max 50 (200 - 10 * (Z.of_nat k + 1)))) /\
    (forall k x y, ds !! k = Some x -> ds !! S k = Some y ->
       50 <= y <= x /\ y = Z.max 50 (x - 10)).
Proof.
  exists (ramp 200 (length ups + length downs)).
  rewrite loop_up_edits, loop_down_edits, <- edits_app.
  rewrite edits_delays by lia.
  rewrite length_app, !length_map, length_ramp.
  split; [reflexivity | split; [reflexivity | split]].
  - intros k Hk. apply ramp_lookup; lia.
  - intros k x y. apply ramp_step. lia.
Qed.

End Delays.

(** * The next-position button *)

Section NextPosition.

(** What the block leaves, whatever the cursor. *)
Lemma loop_nextposn_eq (now : Z) (m : machine) :
  let p := if uint8_t (activePos m + 1) >? 1 then 0
           else uint8_t (activePos m + 1) in
  loop_nextposn now m =
  Machine (spos m) (activeServo m) p (to_long now) (EEPROM m)
          (trace m ++ [StartEaseTo (activeServo m)
                         (spos_at (spos m) p (activeServo m));
                       Delay 200]).
Proof.
  destruct m as [t sv ps lc e tr]. unfold loop_nextposn. proj.
  destruct (uint8_t (ps + 1) >? 1); proj; now rewrite <- app_assoc.
Qed.

Lemma next_slot (p : Z) :
  p = 0 \/ p = 1 ->
  (if uint8_t (p + 1) >? 1 then 0 else uint8_t (p + 1)) = (p + 1) mod 2.
Proof. intros [-> | ->]; reflexivity. Qed.

(** C7: with [activePos] 0 or 1, the next-position block sets [activePos]
    to [(activePos + 1) mod 2], which is again 0 or 1, and starts an eased
    move of the active servo to the position stored in the newly selected
    slot; the servo selection and the table are untouched and
    [lastchange] takes the reading of [millis()]. *)
Theorem loop_nextposn_toggles (m : machine) (now : Z) :
  is_slot (activePos m) = true ->
  let m' := loop_nextposn now m in
  activePos m' = (activePos m + 1) mod 2 /\
  is_slot (activePos m') = true /\
  trace m' =
    trace m ++ [StartEaseTo (activeServo m)
                  (spos_at (spos m) (activePos m') (activeServo m));
                Delay 200] /\
  activeServo m' = activeServo m /\
  spos m' = spos m /\
  lastchange m' = to_long now.
Proof.
  intros H. apply is_slot_spec in H.
  cbv zeta. rewrite loop_nextposn_eq; cbv zeta.
  rewrite (next_slot _ H).
  cbn [spos activeServo activePos lastchange trace].
  repeat split; try reflexivity.
  destruct H as [-> | ->]; reflexivity.
Qed.

Lemma loop_nextposn_toggles_witness :
  is_slot (activePos edited_at_5000) = true /\
  activePos (loop_nextposn 6000 edited_at_5000) = 1 /\
  activePos (loop_nextposn 7000 (loop_nextposn 6000 edited_at_5000)) = 0.
Proof.
  split; [reflexivity | split].
  - destruct (loop_nextposn_toggles edited_at_5000 6000 eq_refl) as [H _].
    exact H.
  - destruct (loop_nextposn_toggles (loop_nextposn 6000 edited_at_5000) 7000
                eq_refl) as [H _].
    exact H.
Defined.

End NextPosition.

(** * The next-servo button *)

Section NextServo.

(** The hold loop only ever writes [nservos] into [activeServo], and does
    so as soon as one reading is more than 2000 past the press. *)
Lemma hold_loop (held : list Z) :
  forall m,
    for_each nextservo_hold held m =
    set_activeServo
      (if existsb (held_too_long (lastchange m)) held
       then nservos else activeServo m) m.
Proof.
  induction held as [|t held IH]; intros m; cbn [for_each existsb].
  - now destruct m.
  - rewrite IH. unfold nextservo_hold, held_too_long.
    destruct (to_ulong (t - to_ulong (lastchange m)) >? 2000); simpl.
    + now destruct (existsb _ held).
    + reflexivity.
Qed.

Lemma loop_nextservo_eq (now : Z) (held : list Z) (m : machine) :
  let a := if existsb (held_too_long (to_long now)) held
           then nservos else activeServo m in
  let a' := if uint8_t (a + 1) >=? nservos then 0 else uint8_t (a + 1) in
  loop_nextservo now held m =
  Machine (spos m) a' (spos_at (spos m) 2 a') (to_long now) (EEPROM m)
          (trace m
           ++ [StartEaseTo (activeServo m)
                 (spos_at (spos m) (spos_at (spos m) 2 (activeServo m))
                          (activeServo m));
               StartEaseTo a' (spos_at (spos m) (spos_at (spos m) 2 a') a');
               Delay 200]).
Proof.
  destruct m as [t sv ps lc e tr].
  unfold loop_nextservo. proj. rewrite hold_loop. proj.
  destruct (existsb _ held).
  - change (uint8_t (nservos + 1) >=? nservos) with true.
    proj. rewrite <- !app_assoc. reflexivity.
  - destruct (uint8_t (sv + 1) >=? nservos); proj;
      rewrite <- !app_assoc; reflexivity.
Qed.

Lemma held_too_long_spec (now t : Z) :
  0 <= now <= t -> t < 4294967296 ->
  held_too_long (to_long now) t = true <-> t - now > 2000.
Proof.
  intros H1 H2. unfold held_too_long.
  rewrite to_ulong_to_long, (to_ulong_small now), to_ulong_small by lia.
  rewrite Z.gtb_ltb, Z.ltb_lt. lia.
Qed.

(** C4: the next-servo block moves [activeServo] to the next servo, from
    the last back to 0, unless a reading of the hold loop is more than 2000
    past the press, in which case [activeServo] is 0 on release whatever
    it was; either way [activePos] becomes [spos[2][activeServo]] of the
    servo selected. *)
Theorem loop_nextservo_cycles (m : machine) (now : Z) (held : list Z) :
  0 <= now ->
  (forall t, In t held -> now <= t < 4294967296) ->
  let m' := loop_nextservo now held m in
  ((exists t, In t held /\ t - now > 2000) -> activeServo m' = 0) /\
  ((forall t, In t held -> t - now <= 2000) ->
   0 <= activeServo m < nservos ->
   activeServo m' = (activeServo m + 1) mod nservos) /\
  activePos m' = spos_at (spos m) 2 (activeServo m') /\
  spos m' = spos m.
Proof.
  intros Hn Hh m'. subst m'. rewrite loop_nextservo_eq; simpl.
  split; [|split; [|split; reflexivity]].
  - intros (t & Hin & Hlong).
    assert (E : existsb (held_too_long (to_long now)) held = true).
    { apply existsb_exists. exists t. split; [exact Hin|].
      specialize (Hh t Hin). apply held_too_long_spec; lia. }
    rewrite E. reflexivity.
  - intros Hshort Ha.
    assert (E : existsb (held_too_long (to_long now)) held = false).
    { apply not_true_is_false. intros E.
      apply existsb_exists in E as (t & Hin & E).
      specialize (Hh t Hin). specialize (Hshort t Hin).
      apply held_too_long_spec in E; lia. }
    rewrite E. unfold nservos in *.
    rewrite uint8_t_small by lia.
    destruct (activeServo m + 1 >=? 8) eqn:G.
    + apply Z.geb_le in G.
      assert (activeServo m = 7) as -> by lia. reflexivity.
    + rewrite Z.geb_leb in G. apply Z.leb_gt in G.
      symmetry. apply Z.mod_small. lia.
Qed.

Lemma loop_nextservo_cycles_witness :
  activeServo (loop_nextservo 6000 [6001; 7000; 8001]
                 (set_activeServo 5 edited_at_5000)) = 0 /\
  activeServo (loop_nextservo 6000 [6001; 6100]
                 (set_activeServo 5 edited_at_5000)) = 6.
Proof.
  split.
  - assert (Hh : forall t, In t [6001; 7000; 8001]
                           -> 6000 <= t < 4294967296).
    { simpl. intros t H. lia. }
    destruct (loop_nextservo_cycles (set_activeServo 5 edited_at_5000)
                6000 [6001; 7000; 8001] ltac:(lia) Hh) as [H _].
    apply H. exists 8001. simpl. split; [tauto | lia].
  - assert (Hh : forall t, In t [6001; 6100] -> 6000 <= t < 4294967296).
    { simpl. intros t H. lia. }
    destruct (loop_nextservo_cycles (set_activeServo 5 edited_at_5000)
                6000 [6001; 6100] ltac:(lia) Hh) as (_ & H & _).
    rewrite H; [reflexivity | simpl; intros t Ht; lia
               | unfold nservos; simpl; lia].
Defined.

End NextServo.

(** * [setup] *)

Section Setup.

(** The initialisation loop writes the table and nothing else. *)
Lemma for_each_setup_defaults (l : list Z) :
  forall m,
    for_each setup_defaults l m =
    set_spos (spos (for_each setup_defaults l
                      (Machine (spos m) 0 0 0 ∅ []))) m.
Proof.
  induction l as [|i l IH]; intros m; cbn [for_each].
  - now destruct m.
  - rewrite IH.
    rewrite (IH (setup_defaults i (Machine (spos m) 0 0 0 ∅ []))).
    now destruct m.
Qed.

(** The table of defaults, as the initialisation loop computes it. *)
Lemma defaults_table :
  spos (for_each setup_defaults servos (Machine (replicate spos_size 0)
                                                0 0 0 ∅ []))
  = replicate 8 130 ++ replicate 8 50 ++ replicate 8 0.
Proof. vm_compute. reflexivity. Qed.

(** [setup] when the marker is missing. *)
Lemma setup_fresh (e : gmap Z Z) :
  EEPROM_read 0 e <> 0xA5 ->
  let t := replicate 8 130 ++ replicate 8 50 ++ replicate 8 0 in
  setup e =
  Machine t 0 0 0 (EEPROM_put 1 t (EEPROM_write 0 0xA5 e))
          (Delay 2000 :: resync t servos).
Proof.
  intros Hmn t. unfold setup; cbv zeta.
  change (EEPROM (emit (Delay 2000) (power_on e))) with e.
  apply Z.eqb_neq in Hmn. rewrite Hmn. cbn [negb orb].
  rewrite for_each_setup_defaults.
  change (spos (set_EEPROM (EEPROM_write 0 165 e)
                  (emit (Delay 2000) (power_on e))))
    with (replicate spos_size 0).
  rewrite defaults_table. fold t.
  rewrite for_each_ease_to_saved. proj.
  change spos_size with (length t).
  rewrite EEPROM_get_put. reflexivity.
Qed.

(** [setup] when the marker is there: the table is whatever the store
    holds. *)
Lemma setup_marked (e : gmap Z Z) :
  EEPROM_read 0 e = 0xA5 ->
  let t := EEPROM_get 1 spos_size e in
  setup e = Machine t 0 0 0 e (Delay 2000 :: resync t servos).
Proof.
  intros Hmn t. unfold setup; cbv zeta.
  change (EEPROM (emit (Delay 2000) (power_on e))) with e.
  rewrite Hmn. cbn [Z.eqb Pos.eqb negb orb INIT].
  rewrite for_each_ease_to_saved. proj. reflexivity.
Qed.

(** C5: when the byte at offset 0 of the store is not 0xA5, [setup] gives
    every servo the first position [(MAXPOSN-MINPOSN)/2 + 40], the second
    position [(MAXPOSN-MINPOSN)/2 - 40] and the slot 0, writes the marker
    and then this table to the store, and loads the table back from the
    store, so that the table in memory is the table of defaults and equals
    the one stored. *)
Theorem setup_reinitialises (e : gmap Z Z) :
  EEPROM_read 0 e <> 0xA5 ->
  let m := setup e in
  (forall i, 0 <= i < nservos ->
     spos_at (spos m) 0 i = (MAXPOSN - MINPOSN) / 2 + 40 /\
     spos_at (spos m) 1 i = (MAXPOSN - MINPOSN) / 2 - 40 /\
     spos_at (spos m) 2 i = 0) /\
  EEPROM m = EEPROM_put 1 (spos m) (EEPROM_write 0 0xA5 e) /\
  EEPROM_read 0 (EEPROM m) = 0xA5 /\
  in_sync m /\
  length (spos m) = spos_size.
Proof.
  intros Hmn m. subst m. rewrite (setup_fresh e Hmn); cbv zeta.
  unfold in_sync. cbn [spos EEPROM].
  split; [|split; [reflexivity | split; [|split]]].
  - intros i Hi. unfold nservos in Hi.
    assert (i = 0 \/ i = 1 \/ i = 2 \/ i = 3 \/ i = 4 \/ i = 5 \/ i = 6
            \/ i = 7) as Hcase by lia.
    repeat (destruct Hcase as [-> | Hcase]; [vm_compute; auto|]).
    subst i. vm_compute; auto.
  - rewrite EEPROM_read_put_below by lia. apply EEPROM_read_write_eq.
  - change spos_size
      with (length (replicate 8 130 ++ replicate 8 50 ++ replicate 8 0)).
    apply EEPROM_get_put.
  - reflexivity.
Qed.

Lemma setup_reinitialises_witness :
  EEPROM_read 0 ∅ <> 0xA5 /\
  spos_at (spos (setup ∅)) 0 3 = 130 /\
  spos_at (spos (setup ∅)) 1 3 = 50 /\
  spos_at (spos (setup ∅)) 2 3 = 0.
Proof.
  assert (Hmn : EEPROM_read 0 ∅ <> 0xA5) by (vm_compute; discriminate).
  split; [exact Hmn|].
  destruct (setup_reinitialises ∅ Hmn) as [H _].
  apply (H 3). unfold nservos. lia.
Defined.

End Setup.

(** * [inputScan] *)

Section InputScan.

Variable level : Z -> bool.
Variable clock : Z -> Z.

Lemma moves_of_app (s : Z) (l1 l2 : list action) :
  moves_of s (l1 ++ l2) = moves_of s l1 ++ moves_of s l2.
Proof. unfold moves_of. apply List.filter_app. Qed.

(** What the body of the scan leaves, for servo [c]. *)
Lemma inputScan_body_eq (c : Z) (m : machine) :
  let slot := spos_at (spos m) 2 c in
  let t' := spos_upd 2 c (if slot =? 0 then 1 else 0) (spos m) in
  inputScan_body level clock c m =
  if negb (digitalRead level (default 0 (controlPin !! Z.to_nat c)) =? slot)
  then Machine t' (activeServo m) (activePos m) (to_long (clock c))
               (EEPROM m)
               (trace m ++ [StartEaseTo c (spos_at t' (spos_at t' 2 c) c)])
  else m.
Proof.
  destruct m as [t sv ps lc e tr]. unfold inputScan_body. proj.
  destruct (negb _); reflexivity.
Qed.

(** The body for servo [c] leaves the positions, the cursor and the store
    alone, and does not concern any other servo. *)
Lemma inputScan_body_frame (c : Z) (m : machine) :
  0 <= c < nservos ->
  let m' := inputScan_body level clock c m in
  length (spos m') = length (spos m) /\
  (forall r c', 0 <= r < 2 -> 0 <= c' < nservos ->
     spos_at (spos m') r c' = spos_at (spos m) r c') /\
  (forall s, 0 <= s < nservos -> s <> c ->
     spos_at (spos m') 2 s = spos_at (spos m) 2 s /\
     moves_of s (trace m') = moves_of s (trace m)) /\
  (lastchange m' = lastchange m \/ lastchange m' = to_long (clock c)) /\
  activeServo m' = activeServo m /\
  activePos m' = activePos m /\
  EEPROM m' = EEPROM m.
Proof.
  intros Hc m'. subst m'. rewrite inputScan_body_eq; cbv zeta.
  destruct (negb _); [|intuition].
  cbn [spos activeServo activePos lastchange EEPROM trace].
  split; [apply length_spos_upd|].
  split; [|split; [|intuition]].
  - intros r c' Hr Hc'. apply spos_at_upd_ne.
    intros E. apply cell_inj in E; lia.
  - intros s Hs Hne. split.
    + apply spos_at_upd_ne. intros E. apply cell_inj in E; lia.
    + rewrite moves_of_app. cbn [moves_of List.filter about_servo].
      rewrite (proj2 (Z.eqb_neq c s)) by lia. apply app_nil_r.
Qed.

(** The same for a run of servos. *)
Lemma inputScan_frame (l : list Z) :
  forall m,
    (forall c, In c l -> 0 <= c < nservos) ->
    let m' := for_each (inputScan_body level clock) l m in
    length (spos m') = length (spos m) /\
    (forall r c', 0 <= r < 2 -> 0 <= c' < nservos ->
       spos_at (spos m') r c' = spos_at (spos m) r c') /\
    (forall s, 0 <= s < nservos -> ~ In s l ->
       spos_at (spos m') 2 s = spos_at (spos m) 2 s /\
       moves_of s (trace m') = moves_of s (trace m)) /\
    (lastchange m' = lastchange m
     \/ exists c, In c l /\ lastchange m' = to_long (clock c)) /\
    activeServo m' = activeServo m /\
    activePos m' = activePos m /\
    EEPROM m' = EEPROM m.
Proof.
  induction l as [|c l IH]; intros m Hl; cbn [for_each].
  - cbv zeta. intuition.
  - assert (Hc : 0 <= c < nservos) by (apply Hl; now left).
    destruct (inputScan_body_frame c m Hc)
      as (B1 & B2 & B3 & B4 & B5 & B6 & B7).
    destruct (IH (inputScan_body level clock c m))
      as (I1 & I2 & I3 & I4 & I5 & I6 & I7).
    { intros c' Hc'. apply Hl. now right. }
    cbv zeta.
    split; [congruence|].
    split; [intros r c' Hr Hc'; rewrite I2, B2 by assumption; reflexivity|].
    split; [|split; [|repeat split; congruence]].
    + intros s Hs Hnot.
      assert (s <> c) by (intros ->; apply Hnot; now left).
      assert (~ In s l) by (intros Hin; apply Hnot; now right).
      destruct (I3 s Hs) as [J1 J2]; [assumption|].
      destruct (B3 s Hs) as [K1 K2]; [assumption|].
      split; congruence.
    + destruct I4 as [I4 | (c' & Hin & I4)].
      * destruct B4 as [B4 | B4].
        -- left. congruence.
        -- right. exists c. split; [now left | congruence].
      * right. exists c'. split; [now right | exact I4].
Qed.

Lemma DirtyMarker_stamp (m : machine) (t : Z) :
  stamp_ok t = true -> lastchange m = to_long t -> DirtyMarker m = Some t.
Proof.
  intros Hok Hl. unfold DirtyMarker. rewrite Hl.
  pose proof (to_long_nonzero t Hok) as Hnz.
  apply Z.eqb_neq in Hnz. rewrite Hnz. f_equal.
  rewrite to_ulong_to_long. apply to_ulong_small.
  unfold stamp_ok in Hok. apply andb_true_iff in Hok as [H1 H2].
  apply Z.ltb_lt in H1, H2. lia.
Qed.

(** The scan of the servos before [s], of [s], and of those after it. *)
Lemma inputScan_at (l1 l2 : list Z) (s : Z) (m : machine) :
  0 <= s < nservos ->
  (forall c, In c (l1 ++ l2) -> 0 <= c < nservos /\ c <> s) ->
  length (spos m) = spos_size ->
  is_slot (spos_at (spos m) 2 s) = true ->
  let m' := for_each (inputScan_body level clock) (l1 ++ s :: l2) m in
  let slot := spos_at (spos m) 2 s in
  let pin := default 0 (controlPin !! Z.to_nat s) in
  (digitalRead level pin <> slot ->
     spos_at (spos m') 2 s = 1 - slot /\
     moves_of s (trace m') =
       moves_of s (trace m) ++ [StartEaseTo s (spos_at (spos m') (1 - slot) s)]
     /\ exists c, In c (s :: l2) /\ lastchange m' = to_long (clock c)) /\
  (digitalRead level pin = slot ->
     spos_at (spos m') 2 s = slot /\
     moves_of s (trace m') = moves_of s (trace m)) /\
  (forall r c, 0 <= r < 2 -> 0 <= c < nservos ->
     spos_at (spos m') r c = spos_at (spos m) r c).
Proof.
  intros Hs Hl Hlen Hslot m' slot pin.
  assert (Hl1 : forall c, In c l1 -> 0 <= c < nservos).
  { intros c Hc. apply Hl, in_or_app. now left. }
  assert (Hl2 : forall c, In c l2 -> 0 <= c < nservos).
  { intros c Hc. apply Hl, in_or_app. now right. }
  assert (Hn1 : ~ In s l1).
  { intros Hc. destruct (Hl s); [apply in_or_app; now left | congruence]. }
  assert (Hn2 : ~ In s l2).
  { intros Hc. destruct (Hl s); [apply in_or_app; now right | congruence]. }
  subst m'. rewrite for_each_app. cbn [for_each].
  set (m1 := for_each (inputScan_body level clock) l1 m).
  destruct (inputScan_frame l1 m Hl1) as (A1 & A2 & A3 & _).
  fold m1 in A1, A2, A3. destruct (A3 s Hs Hn1) as [A4 A5].
  set (m2 := inputScan_body level clock s m1).
  destruct (inputScan_frame l2 m2 Hl2) as (C1 & C2 & C3 & C4 & _).
  destruct (C3 s Hs Hn2) as [C5 C6].
  set (m3 := for_each (inputScan_body level clock) l2 m2) in *.
  assert (Hm2 : m2 = inputScan_body level clock s m1) by reflexivity.
  rewrite inputScan_body_eq in Hm2; cbv zeta in Hm2.
  rewrite A4 in Hm2. fold slot pin in Hm2.
  assert (Hcell : (cell 2 s < length (spos m1))%nat).
  { apply cell_lt; [congruence | lia | lia]. }
  apply is_slot_spec in Hslot. fold slot in Hslot.
  split; [|split].
  - intros Hne. apply Z.eqb_neq in Hne. rewrite Hne in Hm2. cbn [negb] in Hm2.
    assert (Hflip : (if slot =? 0 then 1 else 0) = 1 - slot).
    { destruct Hslot as [-> | ->]; reflexivity. }
    rewrite Hflip in Hm2.
    assert (Hnew : spos_at (spos m2) 2 s = 1 - slot).
    { rewrite Hm2. cbn [spos]. rewrite spos_at_upd_eq by exact Hcell.
      apply uint8_t_small. lia. }
    split; [rewrite C5; exact Hnew|]. split.
    + rewrite C6, Hm2. cbn [trace]. rewrite moves_of_app, A5.
      cbn [moves_of List.filter about_servo]. rewrite Z.eqb_refl.
      rewrite spos_at_upd_eq by exact Hcell.
      rewrite uint8_t_small by lia.
      rewrite C2 by lia. rewrite Hm2. cbn [spos]. reflexivity.
    + destruct C4 as [C4 | (c & Hin & C4)].
      * exists s. split; [now left|]. rewrite C4, Hm2. reflexivity.
      * exists c. split; [now right | exact C4].
  - intros Heq. apply Z.eqb_eq in Heq. rewrite Heq in Hm2. cbn [negb] in Hm2.
    split; [rewrite C5, Hm2; exact A4 | rewrite C6, Hm2; exact A5].
  - intros r c Hr Hc. rewrite C2 by assumption.
    rewrite <- (A2 r c Hr Hc).
    destruct (inputScan_body_frame s m1 Hs) as (_ & B2 & _).
    apply B2; assumption.
Qed.

(** C3 (amended): in one call of [inputScan], a servo [s] whose pin level
    differs from [spos[2][s]] has that slot flipped once, gets exactly one
    eased move, to the position stored in the new slot, and [lastchange]
    takes a reading of [millis()] made in this scan (that of [s], or of a
    later servo that changed too), so that the dirty marker is that
    reading provided it is not 0; a servo whose pin level equals
    [spos[2][s]] keeps its slot and gets no command.  The stored positions
    are never touched. *)
Theorem inputScan_follows_input (m : machine) (s : Z) :
  0 <= s < nservos ->
  length (spos m) = spos_size ->
  is_slot (spos_at (spos m) 2 s) = true ->
  let m' := inputScan level clock m in
  let slot := spos_at (spos m) 2 s in
  let pin := default 0 (controlPin !! Z.to_nat s) in
  (digitalRead level pin <> slot ->
     spos_at (spos m') 2 s = 1 - slot /\
     moves_of s (trace m') =
       moves_of s (trace m) ++ [StartEaseTo s (spos_at (spos m') (1 - slot) s)]
     /\ exists c, s <= c < nservos /\ lastchange m' = to_long (clock c)
                  /\ (stamp_ok (clock c) = true ->
                      DirtyMarker m' = Some (clock c))) /\
  (digitalRead level pin = slot ->
     spos_at (spos m') 2 s = slot /\
     moves_of s (trace m') = moves_of s (trace m)) /\
  (forall r c, 0 <= r < 2 -> 0 <= c < nservos ->
     spos_at (spos m') r c = spos_at (spos m) r c).
Proof.
  intros Hs Hlen Hslot m' slot pin.
  assert (Hsplit : exists l1 l2,
             servos = l1 ++ s :: l2 /\
             (forall c, In c (l1 ++ l2) -> 0 <= c < nservos /\ c <> s) /\
             (forall c, In c (s :: l2) -> s <= c < nservos)).
  { unfold nservos in Hs.
    assert (s = 0 \/ s = 1 \/ s = 2 \/ s = 3 \/ s = 4 \/ s = 5 \/ s = 6
            \/ s = 7) as Hcase by lia.
    exists (seqZ 0 s), (seqZ (s + 1) (7 - s)).
    repeat (destruct Hcase as [-> | Hcase];
            [split; [reflexivity|]; unfold nservos; simpl;
             split; intros c Hc; lia|]).
    subst s. split; [reflexivity|]; unfold nservos; simpl;
      split; intros c Hc; lia. }
  destruct Hsplit as (l1 & l2 & Hsv & Hl & Hafter).
  destruct (inputScan_at l1 l2 s m Hs Hl Hlen Hslot) as (H1 & H2 & H3).
  subst m'. unfold inputScan. rewrite Hsv.
  split; [|split; assumption].
  intros Hne. destruct (H1 Hne) as (F1 & F2 & c & Hin & F3).
  split; [exact F1|]. split; [exact F2|].
  exists c. split; [now apply Hafter|]. split; [exact F3|].
  intros Hok. now apply DirtyMarker_stamp.
Qed.

End InputScan.

(** * Properties kept by every pass of [loop] *)

Section LoopInduction.

Variable P : machine -> Prop.
Variable inp : loop_input.

Hypothesis P_edit :
  forall ev m d,
    In ev (map Increase (up_held inp) ++ map Decrease (down_held inp)) ->
    P m -> P (fst (edit_body ev (m, d))).
Hypothesis P_nextservo :
  forall now held m,
    nextservo_pressed inp = Some (now, held) ->
    P m -> P (loop_nextservo now held m).
Hypothesis P_nextposn :
  forall now m,
    nextposn_pressed inp = Some now -> P m -> P (loop_nextposn now m).
Hypothesis P_save : forall m, P m -> P (loop_save (save_clock inp) m).
Hypothesis P_scan :
  forall c m,
    In c servos ->
    P m -> P (inputScan_body (pin_level inp) (scan_clock inp) c m).
Hypothesis P_emit : forall a m, P m -> P (emit a m).

Lemma edits_preserve (es : list edit) :
  forall md,
    (forall ev m d, In ev es -> P m -> P (fst (edit_body ev (m, d)))) ->
    P (fst md) -> P (fst (edits es md)).
Proof.
  induction es as [|ev es IH]; intros [m d] Hstep Hm; cbn [edits].
  - exact Hm.
  - apply IH.
    + intros ev' m' d' Hin. apply Hstep. now right.
    + destruct (edit_body ev (m, d)) as [m1 d1] eqn:E.
      change m1 with (fst (m1, d1)). rewrite <- E.
      apply Hstep; [now left | exact Hm].
Qed.

Lemma for_each_preserve (body : Z -> machine -> machine) (l : list Z) :
  forall m,
    (forall c m, In c l -> P m -> P (body c m)) ->
    P m -> P (for_each body l m).
Proof.
  induction l as [|c l IH]; intros m Hstep Hm; cbn [for_each].
  - exact Hm.
  - apply IH.
    + intros c' m' Hin. apply Hstep. now right.
    + apply Hstep; [now left | exact Hm].
Qed.

Lemma loop_preserves (m : machine) : P m -> P (loop inp m).
Proof.
  intros Hm. unfold loop.
  rewrite loop_up_edits.
  destruct (edits (map Increase (up_held inp)) (m, 200)) as [m1 d1] eqn:E1.
  rewrite loop_down_edits.
  destruct (edits (map Decrease (down_held inp)) (m1, d1)) as [m2 d2] eqn:E2.
  assert (H2 : P m2).
  { change m2 with (fst (m2, d2)). rewrite <- E2, <- E1, <- edits_app.
    apply edits_preserve; [exact P_edit | exact Hm]. }
  apply P_emit. unfold inputScan.
  apply for_each_preserve; [exact P_scan|].
  apply P_save.
  destruct (nextposn_pressed inp) as [now|] eqn:Epos;
    destruct (nextservo_pressed inp) as [[now' held]|] eqn:Esrv.
  - apply (P_nextposn now); [reflexivity|].
    now apply (P_nextservo now' held).
  - now apply (P_nextposn now).
  - now apply (P_nextservo now' held).
  - exact H2.
Qed.

End LoopInduction.

(** * The invariant of the table and of the cursor *)

Section WellFormed.

Lemma wf_spec (m : machine) :
  wf m = true <->
  positions_ok (spos m) = true /\ slots_ok (spos m) = true
  /\ cursor_ok m = true.
Proof. unfold wf, table_ok. rewrite !andb_true_iff. tauto. Qed.

Lemma wf_edit_body (ev : edit) (m : machine) (d : Z) :
  wf m = true -> wf (fst (edit_body ev (m, d))) = true.
Proof.
  rewrite !wf_spec. intros (Hp & Hs & Hc).
  split; [|split].
  - now apply edit_body_positions.
  - now apply edit_body_slots.
  - now apply edit_body_cursor_ok.
Qed.

Lemma uint8_t_range (v : Z) : 0 <= uint8_t v < 256.
Proof. unfold uint8_t. apply Z.mod_pos_bound. lia. Qed.

Lemma wf_loop_nextservo (now : Z) (held : list Z) (m : machine) :
  wf m = true -> wf (loop_nextservo now held m) = true.
Proof.
  rewrite !wf_spec. intros (Hp & Hs & Hc).
  rewrite loop_nextservo_eq; cbv zeta.
  set (a := if existsb _ held then nservos else activeServo m).
  set (a' := if uint8_t (a + 1) >=? nservos then 0 else uint8_t (a + 1)).
  cbn [spos]. split; [exact Hp | split; [exact Hs|]].
  assert (Ha' : 0 <= a' < nservos).
  { subst a'. pose proof (uint8_t_range (a + 1)).
    destruct (uint8_t (a + 1) >=? nservos) eqn:G.
    - unfold nservos. lia.
    - rewrite Z.geb_leb in G. apply Z.leb_gt in G. lia. }
  apply cursor_ok_spec. cbn [activeServo activePos].
  split; [exact Ha'|].
  now apply (proj1 (slots_ok_spec _) Hs).
Qed.

Lemma wf_loop_nextposn (now : Z) (m : machine) :
  wf m = true -> wf (loop_nextposn now m) = true.
Proof.
  rewrite !wf_spec. intros (Hp & Hs & Hc).
  apply cursor_ok_spec in Hc as [Ha Hslot].
  rewrite loop_nextposn_eq; cbv zeta. rewrite (next_slot _ Hslot).
  cbn [spos]. split; [exact Hp | split; [exact Hs|]].
  apply cursor_ok_spec. cbn [activeServo activePos]. split; [exact Ha|].
  destruct Hslot as [-> | ->]; [now right | now left].
Qed.

Lemma wf_loop_save (now : Z) (m : machine) :
  wf m = true -> wf (loop_save now m) = true.
Proof.
  intros H. destruct (save_due now m) eqn:E.
  - rewrite (loop_save_commit m now E).
    apply wf_spec in H as (Hp & Hs & Hc). apply wf_spec. cbn [spos].
    split; [exact Hp | split; [exact Hs|]].
    apply cursor_ok_spec in Hc as [_ Hslot]. apply cursor_ok_spec.
    cbn [activeServo activePos]. unfold nservos. split; [lia | exact Hslot].
  - now rewrite (loop_save_skip m now E).
Qed.

Lemma wf_inputScan_body (level : Z -> bool) (clock : Z -> Z) (c : Z)
    (m : machine) :
  In c servos -> wf m = true -> wf (inputScan_body level clock c m) = true.
Proof.
  intros Hin. apply in_servos in Hin.
  rewrite !wf_spec. intros (Hp & Hs & Hc).
  rewrite inputScan_body_eq; cbv zeta.
  destruct (negb _); [|now repeat split].
  cbn [spos]. split; [|split].
  - now apply positions_ok_upd_slot.
  - apply slots_ok_upd_slot; try assumption.
    + now apply positions_ok_spec in Hp as [Hl _].
    + destruct (spos_at (spos m) 2 c =? 0); [now right | now left].
  - exact Hc.
Qed.

Lemma wf_emit (a : action) (m : machine) : wf m = true -> wf (emit a m) = true.
Proof. intros H. exact H. Qed.

Lemma wf_inputScan (level : Z -> bool) (clock : Z -> Z) (m : machine) :
  wf m = true -> wf (inputScan level clock m) = true.
Proof.
  intros H. unfold inputScan.
  apply (for_each_preserve (fun m => wf m = true)); [|exact H].
  intros c m'. apply wf_inputScan_body.
Qed.

Lemma wf_loop (inp : loop_input) (m : machine) :
  wf m = true -> wf (loop inp m) = true.
Proof.
  apply (loop_preserves (fun m => wf m = true)).
  - intros ev m' d _. apply wf_edit_body.
  - intros now held m' _. apply wf_loop_nextservo.
  - intros now m' _. apply wf_loop_nextposn.
  - intros m'. apply wf_loop_save.
  - intros c m'. apply wf_inputScan_body.
  - intros a m'. apply wf_emit.
Qed.

Lemma length_EEPROM_get (n : nat) :
  forall a e, length (EEPROM_get a n e) = n.
Proof.
  induction n as [|n IH]; intros a e; simpl; [reflexivity | now rewrite IH].
Qed.

Lemma wf_setup (e : gmap Z Z) :
  EEPROM_read 0 e <> 0xA5 \/ table_ok (EEPROM_get 1 spos_size e) = true ->
  wf (setup e) = true.
Proof.
  destruct (Z.eq_dec (EEPROM_read 0 e) 0xA5) as [Hmn | Hmn].
  - intros [H | H]; [contradiction|].
    rewrite (setup_marked e Hmn); cbv zeta.
    unfold wf. cbn [spos]. rewrite H. reflexivity.
  - intros _. rewrite (setup_fresh e Hmn); cbv zeta. reflexivity.
Qed.

Lemma wf_run (e : gmap Z Z) (inps : list loop_input) :
  EEPROM_read 0 e <> 0xA5 \/ table_ok (EEPROM_get 1 spos_size e) = true ->
  wf (run e inps) = true.
Proof.
  intros H. unfold run.
  pose proof (wf_setup e H) as H0. revert H0.
  generalize (setup e) as m.
  induction inps as [|inp inps IH]; intros m Hm; simpl.
  - exact Hm.
  - apply IH. now apply wf_loop.
Qed.

(** C8, as stated, fails on the load path: a store that holds the marker
    and erased cells (as when power is lost between the write of the marker
    and the write of the table) is loaded as it is, and its bytes are
    neither positions in range nor slots. *)
Lemma setup_loads_unchecked :
  ~ (forall e : gmap Z Z, table_ok (spos (setup e)) = true).
Proof.
  intros H. specialize (H marker_only).
  vm_compute in H. discriminate.
Qed.

(** C8 (amended): the invariant of the table (positions in
    [MINPOSN, MAXPOSN], slots 0 or 1), together with a valid cursor, holds
    after [setup] when the marker is missing, and when the marker is there
    provided the table in the store satisfies it; it is kept by a turn of
    the up or down loop, by the next-servo and next-position blocks, by the
    save block, by [inputScan], hence by every pass of [loop] and in every
    state the sketch reaches. *)
Theorem table_invariant_kept :
  (forall e,
     EEPROM_read 0 e <> 0xA5 \/ table_ok (EEPROM_get 1 spos_size e) = true ->
     wf (setup e) = true) /\
  (forall ev m d, wf m = true -> wf (fst (edit_body ev (m, d))) = true) /\
  (forall now held m, wf m = true -> wf (loop_nextservo now held m) = true) /\
  (forall now m, wf m = true -> wf (loop_nextposn now m) = true) /\
  (forall now m, wf m = true -> wf (loop_save now m) = true) /\
  (forall level clock m,
     wf m = true -> wf (inputScan level clock m) = true) /\
  (forall inp m, wf m = true -> wf (loop inp m) = true) /\
  (forall e inps,
     EEPROM_read 0 e <> 0xA5 \/ table_ok (EEPROM_get 1 spos_size e) = true ->
     table_ok (spos (run e inps)) = true).
Proof.
  split; [exact wf_setup|].
  split; [exact wf_edit_body|].
  split; [exact wf_loop_nextservo|].
  split; [exact wf_loop_nextposn|].
  split; [exact wf_loop_save|].
  split; [exact wf_inputScan|].
  split; [exact wf_loop|].
  intros e inps H. pose proof (wf_run e inps H) as Hwf.
  unfold wf in Hwf. now apply andb_true_iff in Hwf as [Ht _].
Qed.

End WellFormed.

Section WellFormedWitness.

Lemma table_invariant_kept_witness :
  wf (setup ∅) = true /\
  table_ok (spos (run ∅ [pass_before_wrap; pass_at_wrap])) = true.
Proof.
  assert (Hmn : EEPROM_read 0 ∅ <> 0xA5
                \/ table_ok (EEPROM_get 1 spos_size ∅) = true).
  { left. vm_compute. discriminate. }
  destruct table_invariant_kept as (Hsetup & _ & _ & _ & _ & _ & _ & Hrun).
  split; [exact (Hsetup ∅ Hmn) | exact (Hrun ∅ _ Hmn)].
Defined.

End WellFormedWitness.

(** * The store and the dirty marker *)

Section Sync.

Lemma synced_stamped (m : machine) (now : Z) :
  stamp_ok now = true ->
  length (spos m) = spos_size -> lastchange m = to_long now -> synced m.
Proof.
  intros Hok Hlen Hl. split; [exact Hlen|].
  intros H0. rewrite Hl in H0. now apply to_long_nonzero in H0.
Qed.

Lemma synced_setup (e : gmap Z Z) : synced (setup e).
Proof.
  destruct (Z.eq_dec (EEPROM_read 0 e) 0xA5) as [Hmn | Hmn].
  - rewrite (setup_marked e Hmn); cbv zeta.
    split; [apply length_EEPROM_get | reflexivity].
  - rewrite (setup_fresh e Hmn); cbv zeta.
    split; [reflexivity|]. intros _. unfold in_sync. cbn [spos EEPROM].
    change spos_size
      with (length (replicate 8 130 ++ replicate 8 50 ++ replicate 8 0)).
    apply EEPROM_get_put.
Qed.

Lemma synced_edit_body (ev : edit) (m : machine) (d : Z) :
  stamp_ok (edit_stamp ev) = true ->
  synced m -> synced (fst (edit_body ev (m, d))).
Proof.
  intros Hok [Hlen _].
  apply (synced_stamped _ (edit_stamp ev) Hok);
    destruct ev as [now | now]; cbn [edit_body edit_stamp].
  - rewrite loop_up_body_eq; cbv zeta. cbn [fst spos].
    destruct (_ <? MAXPOSN); [now rewrite length_spos_upd | exact Hlen].
  - rewrite loop_down_body_eq; cbv zeta. cbn [fst spos].
    destruct (_ >? MINPOSN); [now rewrite length_spos_upd | exact Hlen].
  - now rewrite loop_up_body_eq.
  - now rewrite loop_down_body_eq.
Qed.

Lemma synced_loop_nextservo (now : Z) (held : list Z) (m : machine) :
  stamp_ok now = true -> synced m -> synced (loop_nextservo now held m).
Proof.
  intros Hok [Hlen _]. apply (synced_stamped _ now Hok).
  - now rewrite loop_nextservo_eq.
  - now rewrite loop_nextservo_eq.
Qed.

Lemma synced_loop_nextposn (now : Z) (m : machine) :
  stamp_ok now = true -> synced m -> synced (loop_nextposn now m).
Proof.
  intros Hok [Hlen _]. apply (synced_stamped _ now Hok).
  - now rewrite loop_nextposn_eq.
  - now rewrite loop_nextposn_eq.
Qed.

Lemma synced_loop_save (now : Z) (m : machine) :
  synced m -> synced (loop_save now m).
Proof.
  intros [Hlen Hs]. destruct (save_due now m) eqn:E.
  - rewrite (loop_save_commit m now E). split; [exact Hlen|].
    intros _. unfold in_sync. cbn [spos EEPROM].
    pose proof (EEPROM_get_put (spos m) 1 (EEPROM m)) as R.
    rewrite Hlen in R. exact R.
  - rewrite (loop_save_skip m now E). now split.
Qed.

Lemma synced_inputScan_body (level : Z -> bool) (clock : Z -> Z) (c : Z)
    (m : machine) :
  stamp_ok (clock c) = true ->
  synced m -> synced (inputScan_body level clock c m).
Proof.
  intros Hok [Hlen Hs]. rewrite inputScan_body_eq; cbv zeta.
  destruct (negb _); [|now split].
  apply (synced_stamped _ (clock c) Hok); cbn [spos lastchange].
  - now rewrite length_spos_upd.
  - reflexivity.
Qed.

Lemma synced_emit (a : action) (m : machine) : synced m -> synced (emit a m).
Proof. intros H. exact H. Qed.

Lemma synced_loop (inp : loop_input) (m : machine) :
  all_stamps_ok inp = true -> synced m -> synced (loop inp m).
Proof.
  unfold all_stamps_ok, edit_stamps_ok.
  rewrite !andb_true_iff, !forallb_forall.
  intros ((((Hup & Hdown) & Hscan) & Hsrv) & Hpos).
  apply (loop_preserves synced).
  - intros ev m' d Hin. apply synced_edit_body.
    apply in_app_or in Hin as [Hin | Hin];
      apply in_map_iff in Hin as (now & <- & Hin); cbn [edit_stamp].
    + now apply Hup.
    + now apply Hdown.
  - intros now held m' E. rewrite E in Hsrv.
    now apply synced_loop_nextservo.
  - intros now m' E. rewrite E in Hpos. now apply synced_loop_nextposn.
  - intros m'. apply synced_loop_save.
  - intros c m' Hin. apply synced_inputScan_body. now apply Hscan.
  - intros a m'. apply synced_emit.
Qed.

Lemma synced_run (e : gmap Z Z) (inps : list loop_input) :
  forallb all_stamps_ok inps = true -> synced (run e inps).
Proof.
  unfold run. pose proof (synced_setup e) as H0. revert H0.
  generalize (setup e) as m.
  induction inps as [|inp inps IH]; intros m Hm Hall; simpl in *.
  - exact Hm.
  - apply andb_true_iff in Hall as [H1 H2].
    apply IH; [now apply synced_loop | exact H2].
Qed.

(** C9, as stated, fails: a press of the next-position (or next-servo)
    button changes no entry of the table but stores its reading of
    [millis()] into [lastchange]; when that reading is 0, a change that
    was pending is forgotten.  Here servo 0 follows its input 100
    time-units before the clock wraps, and the button is read at 0. *)
Lemma pending_change_forgotten :
  ~ (forall (e : gmap Z Z) (inps : list loop_input),
       forallb edit_stamps_ok inps = true ->
       lastchange (run e inps) = 0 -> in_sync (run e inps)).
Proof.
  intros H.
  specialize (H ∅ [pass_before_wrap; pass_at_wrap]).
  assert (H1 : forallb edit_stamps_ok [pass_before_wrap; pass_at_wrap] = true)
    by (vm_compute; reflexivity).
  assert (H2 : lastchange (run ∅ [pass_before_wrap; pass_at_wrap]) = 0)
    by (vm_compute; reflexivity).
  specialize (H H1 H2). clear H1 H2. vm_compute in H. discriminate H.
Qed.

(** C9 (amended): in every run of the sketch in which every reading of
    [millis()] that is stored into [lastchange] (by a turn of the up or down
    loop, by a press of the next-servo or next-position button, by a change
    seen in [inputScan]) is other than 0, whenever [lastchange] is 0 the
    table stored at offset 1 equals the table in memory. *)
Theorem store_in_sync_when_clean (e : gmap Z Z) (inps : list loop_input) :
  forallb all_stamps_ok inps = true ->
  lastchange (run e inps) = 0 ->
  in_sync (run e inps).
Proof.
  intros Hall H0. destruct (synced_run e inps Hall) as [_ H]. exact (H H0).
Qed.

End Sync.

Section SyncWitness.

Lemma store_in_sync_when_clean_witness :
  forallb all_stamps_ok [pass_up_twice; pass_quiet_late] = true /\
  lastchange (run ∅ [pass_up_twice; pass_quiet_late]) = 0 /\
  in_sync (run ∅ [pass_up_twice; pass_quiet_late]).
Proof.
  assert (H1 : forallb all_stamps_ok [pass_up_twice; pass_quiet_late] = true)
    by (vm_compute; reflexivity).
  assert (H2 : lastchange (run ∅ [pass_up_twice; pass_quiet_late]) = 0)
    by (vm_compute; reflexivity).
  split; [exact H1 | split; [exact H2|]].
  exact (store_in_sync_when_clean ∅ [pass_up_twice; pass_quiet_late] H1 H2).
Defined.

End SyncWitness.

Section InputScanWitness.

(** C3, as stated, fails: when [millis()] reads 0 (the clock has just
    wrapped) the slot is flipped and the move is started, but [lastchange]
    becomes 0, which is the encoding of "no pending change": the dirty
    marker is [None], not the current time. *)
Lemma inputScan_at_reading_zero :
  ~ (forall (level : Z -> bool) (clock : Z -> Z) (m : machine) (s : Z),
       (forall c, 0 <= clock c < 4294967296) ->
       0 <= s < nservos ->
       length (spos m) = spos_size ->
       is_slot (spos_at (spos m) 2 s) = true ->
       digitalRead level (default 0 (controlPin !! Z.to_nat s))
         <> spos_at (spos m) 2 s ->
       exists c, s <= c < nservos /\
                 DirtyMarker (inputScan level clock m) = Some (clock c)).
Proof.
  intros H.
  destruct (H (fun pin => pin =? 7) (fun _ => 0) (setup ∅) 3)
    as (c & _ & Hc).
  - intros c. lia.
  - unfold nservos. lia.
  - vm_compute. reflexivity.
  - vm_compute. reflexivity.
  - vm_compute. discriminate.
  - vm_compute in Hc. discriminate Hc.
Qed.

Lemma inputScan_follows_input_witness :
  let m' := inputScan (fun pin => pin =? 7) (fun _ => 9000) edited_at_5000 in
  spos_at (spos m') 2 3 = 1 /\
  moves_of 3 (trace m') = [StartEaseTo 3 50] /\
  spos_at (spos m') 2 4 = 0 /\
  moves_of 4 (trace m') = [].
Proof.
  cbv zeta.
  destruct (inputScan_follows_input (fun pin => pin =? 7) (fun _ => 9000)
              edited_at_5000 3) as [H _];
    [unfold nservos; lia | reflexivity | reflexivity |].
  destruct H as (H1 & H2 & _); [vm_compute; discriminate|].
  destruct (inputScan_follows_input (fun pin => pin =? 7) (fun _ => 9000)
              edited_at_5000 4) as (_ & H & _);
    [unfold nservos; lia | reflexivity | reflexivity |].
  destruct H as (H3 & H4); [reflexivity|].
  split; [exact H1 | split; [exact H2 | split; [exact H3 | exact H4]]].
Defined.

End InputScanWitness.

(** * What the save block leaves alone *)

Section SaveFrame.

(** C10: when the save block runs, the only globals it changes are
    [lastchange] (to 0) and [activeServo] (to 0), besides the store it
    writes and the moves it starts: [activePos] and every entry of the
    table are as before.  So [activePos] can differ from the slot in use of
    servo 0 afterwards, and the next turn of the up loop then changes the
    position of servo 0 in that other slot. *)
Theorem loop_save_frame :
  (forall m now,
     save_due now m = true ->
     let m' := loop_save now m in
     activePos m' = activePos m /\ spos m' = spos m /\
     lastchange m' = 0 /\ activeServo m' = 0) /\
  (exists m now,
     wf m = true /\ save_due now m = true /\
     let m' := loop_save now m in
     activePos m' <> spos_at (spos m') 2 (activeServo m') /\
     forall now' d,
       let m'' := fst (loop_up_body now' (m', d)) in
       spos_at (spos m'') (activePos m') 0
         = spos_at (spos m') (activePos m') 0 + 1 /\
       spos_at (spos m'') (spos_at (spos m') 2 0) 0
         = spos_at (spos m') (spos_at (spos m') 2 0) 0).
Proof.
  split.
  - intros m now H. cbv zeta. rewrite (loop_save_commit m now H).
    repeat split; reflexivity.
  - exists editing_servo_3, 30000.
    assert (E : save_due 30000 editing_servo_3 = true) by reflexivity.
    split; [reflexivity | split; [exact E|]].
    cbv zeta. rewrite (loop_save_commit _ _ E).
    split; [vm_compute; discriminate|].
    intros now' d. rewrite loop_up_body_eq. vm_compute. split; reflexivity.
Qed.

Lemma loop_save_frame_witness :
  save_due 30000 editing_servo_3 = true /\
  activePos (loop_save 30000 editing_servo_3) = 1 /\
  activeServo (loop_save 30000 editing_servo_3) = 0.
Proof.
  assert (E : save_due 30000 editing_servo_3 = true) by reflexivity.
  destruct loop_save_frame as [H _].
  destruct (H editing_servo_3 30000 E) as (H1 & _ & _ & H2).
  split; [exact E | split; [exact H1 | exact H2]].
Defined.

End SaveFrame.

(** * Further properties of the sketch *)

(** ** The store over a whole run *)

Section RunStore.

(** What holds after [setup] and is kept by [loop] holds all along. *)
Lemma run_induction (P : machine -> Prop) (e : gmap Z Z)
    (inps : list loop_input) :
  P (setup e) -> (forall inp m, P m -> P (loop inp m)) -> P (run e inps).
Proof.
  intros H0 Hstep. unfold run. revert H0. generalize (setup e) as m.
  induction inps as [|inp inps IH]; intros m Hm; simpl.
  - exact Hm.
  - apply IH. now apply Hstep.
Qed.

(** [put] leaves the cells past its last address alone. *)
Lemma EEPROM_read_put_above (bs : list Z) :
  forall (a b : Z) (e : gmap Z Z),
    a + Z.of_nat (length bs) <= b ->
    EEPROM_read b (EEPROM_put a bs e) = EEPROM_read b e.
Proof.
  induction bs as [|x bs IH]; intros a b e Hle; simpl in *.
  - reflexivity.
  - rewrite IH by lia. apply EEPROM_read_write_ne. lia.
Qed.

(** The blocks of [loop] other than the save block leave the store
    alone. *)
Lemma loop_buttons_split (inp : loop_input) (m : machine) :
  loop inp m =
  emit (Delay 100)
       (inputScan (pin_level inp) (scan_clock inp)
          (loop_save (save_clock inp) (loop_buttons inp m))).
Proof.
  unfold loop, loop_buttons.
  destruct (loop_up (up_held inp) (m, 200)) as [m1 d1].
  destruct (loop_down (down_held inp) (m1, d1)) as [m2 d2].
  reflexivity.
Qed.

Lemma edits_EEPROM (es : list edit) :
  forall md, EEPROM (fst (edits es md)) = EEPROM (fst md).
Proof.
  induction es as [|ev es IH]; intros [m d]; cbn [edits].
  - reflexivity.
  - rewrite IH. destruct (edit_body ev (m, d)) as [m1 d1] eqn:E.
    change m1 with (fst (m1, d1)). rewrite <- E.
    now destruct (edit_body_cursor ev m d) as (_ & _ & H).
Qed.

Lemma loop_buttons_EEPROM (inp : loop_input) (m : machine) :
  EEPROM (loop_buttons inp m) = EEPROM m.
Proof.
  unfold loop_buttons.
  rewrite loop_up_edits.
  destruct (edits (map Increase (up_held inp)) (m, 200)) as [m1 d1] eqn:E1.
  rewrite loop_down_edits.
  destruct (edits (map Decrease (down_held inp)) (m1, d1)) as [m2 d2] eqn:E2.
  assert (H2 : EEPROM m2 = EEPROM m).
  { change m2 with (fst (m2, d2)). rewrite <- E2, edits_EEPROM. cbn [fst].
    change m1 with (fst (m1, d1)). rewrite <- E1, edits_EEPROM.
    reflexivity. }
  destruct (nextposn_pressed inp) as [now|];
    destruct (nextservo_pressed inp) as [[now' held]|];
    rewrite ?loop_nextposn_eq, ?loop_nextservo_eq; exact H2.
Qed.

Lemma inputScan_EEPROM (level : Z -> bool) (clock : Z -> Z) (m : machine) :
  EEPROM (inputScan level clock m) = EEPROM m.
Proof.
  unfold inputScan.
  destruct (inputScan_frame level clock servos m)
    as (_ & _ & _ & _ & _ & _ & H).
  - intros c Hc. now apply in_servos.
  - exact H.
Qed.

Lemma loop_EEPROM (inp : loop_input) (m : machine) :
  EEPROM (loop inp m) =
  if save_due (save_clock inp) (loop_buttons inp m)
  then EEPROM_put 1 (spos (loop_buttons inp m)) (EEPROM m)
  else EEPROM m.
Proof.
  rewrite loop_buttons_split.
  change (EEPROM (emit (Delay 100) ?x)) with (EEPROM x).
  rewrite inputScan_EEPROM.
  destruct (save_due _ (loop_buttons inp m)) eqn:E.
  - rewrite (loop_save_commit _ _ E). cbn [EEPROM].
    now rewrite loop_buttons_EEPROM.
  - rewrite (loop_save_skip _ _ E). apply loop_buttons_EEPROM.
Qed.

(** X1: The save block is the only writer of the store, and what it writes is
    the table as the buttons of this pass left it, before the inputs of
    this pass are scanned. *)
Theorem loop_writes_store_in_save_only (inp : loop_input) (m : machine) :
  EEPROM (loop inp m) =
  if save_due (save_clock inp) (loop_buttons inp m)
  then EEPROM_put 1 (spos (loop_buttons inp m)) (EEPROM m)
  else EEPROM m.
Proof. apply loop_EEPROM. Qed.

Lemma edits_length (es : list edit) :
  forall md, length (spos (fst (edits es md))) = length (spos (fst md)).
Proof.
  induction es as [|ev es IH]; intros [m d]; cbn [edits].
  - reflexivity.
  - rewrite IH. destruct ev as [now | now]; cbn [edit_body].
    + rewrite loop_up_body_eq; cbv zeta. cbn [fst spos].
      destruct (_ <? MAXPOSN); [apply length_spos_upd | reflexivity].
    + rewrite loop_down_body_eq; cbv zeta. cbn [fst spos].
      destruct (_ >? MINPOSN); [apply length_spos_upd | reflexivity].
Qed.

Lemma loop_buttons_length (inp : loop_input) (m : machine) :
  length (spos (loop_buttons inp m)) = length (spos m).
Proof.
  unfold loop_buttons.
  rewrite loop_up_edits.
  destruct (edits (map Increase (up_held inp)) (m, 200)) as [m1 d1] eqn:E1.
  rewrite loop_down_edits.
  destruct (edits (map Decrease (down_held inp)) (m1, d1)) as [m2 d2] eqn:E2.
  assert (H2 : length (spos m2) = length (spos m)).
  { change m2 with (fst (m2, d2)). rewrite <- E2, edits_length. cbn [fst].
    change m1 with (fst (m1, d1)). rewrite <- E1, edits_length.
    reflexivity. }
  destruct (nextposn_pressed inp) as [now|];
    destruct (nextservo_pressed inp) as [[now' held]|];
    rewrite ?loop_nextposn_eq, ?loop_nextservo_eq; exact H2.
Qed.

Lemma loop_length (inp : loop_input) (m : machine) :
  length (spos (loop inp m)) = length (spos m).
Proof.
  rewrite loop_buttons_split.
  change (spos (emit (Delay 100) ?x)) with (spos x).
  unfold inputScan.
  destruct (inputScan_frame (pin_level inp) (scan_clock inp) servos
              (loop_save (save_clock inp) (loop_buttons inp m))) as (H & _).
  { intros c Hc. now apply in_servos. }
  rewrite H.
  destruct (save_due (save_clock inp) (loop_buttons inp m)) eqn:E.
  - rewrite (loop_save_commit _ _ E). cbn [spos]. apply loop_buttons_length.
  - rewrite (loop_save_skip _ _ E). apply loop_buttons_length.
Qed.

Lemma setup_length (e : gmap Z Z) : length (spos (setup e)) = spos_size.
Proof.
  destruct (Z.eq_dec (EEPROM_read 0 e) 0xA5) as [Hmn | Hmn].
  - rewrite (setup_marked e Hmn); cbv zeta. apply length_EEPROM_get.
  - rewrite (setup_fresh e Hmn); cbv zeta. reflexivity.
Qed.

Lemma run_length (e : gmap Z Z) (inps : list loop_input) :
  length (spos (run e inps)) = spos_size.
Proof.
  apply (run_induction (fun m => length (spos m) = spos_size)).
  - apply setup_length.
  - intros inp m H. now rewrite loop_length.
Qed.

Lemma run_marker (e : gmap Z Z) (inps : list loop_input) :
  EEPROM_read 0 (EEPROM (run e inps)) = 0xA5.
Proof.
  apply (run_induction (fun m => EEPROM_read 0 (EEPROM m) = 0xA5)).
  - destruct (Z.eq_dec (EEPROM_read 0 e) 0xA5) as [Hmn | Hmn].
    + rewrite (setup_marked e Hmn); cbv zeta. exact Hmn.
    + rewrite (setup_fresh e Hmn); cbv zeta. cbn [EEPROM].
      rewrite EEPROM_read_put_below by lia. apply EEPROM_read_write_eq.
  - intros inp m H. rewrite loop_EEPROM.
    destruct (save_due _ _); [|exact H].
    now rewrite EEPROM_read_put_below by lia.
Qed.

(** X2: Once [setup] has run, the marker byte stays in the store for ever,
    whatever the store held at power-on and whatever happens in [loop]. *)
Theorem marker_stays (e : gmap Z Z) (inps : list loop_input) :
  EEPROM_read 0 (EEPROM (run e inps)) = 0xA5.
Proof. apply run_marker. Qed.

(** X3: The sketch only ever touches the 25 bytes at offsets 0 to 24 of the
    store: every other cell keeps the value it had at power-on. *)
Theorem store_outside_record_untouched (e : gmap Z Z)
    (inps : list loop_input) (a : Z) :
  a < 0 \/ 24 < a ->
  EEPROM_read a (EEPROM (run e inps)) = EEPROM_read a e.
Proof.
  intros Ha.
  apply (run_induction
           (fun m => length (spos m) = spos_size
                     /\ EEPROM_read a (EEPROM m) = EEPROM_read a e)).
  - split; [apply setup_length|].
    destruct (Z.eq_dec (EEPROM_read 0 e) 0xA5) as [Hmn | Hmn].
    + now rewrite (setup_marked e Hmn).
    + rewrite (setup_fresh e Hmn); cbv zeta. cbn [EEPROM].
      destruct Ha as [Ha | Ha].
      * rewrite EEPROM_read_put_below by lia.
        apply EEPROM_read_write_ne. lia.
      * rewrite EEPROM_read_put_above by (simpl; lia).
        apply EEPROM_read_write_ne. lia.
  - intros inp m [Hl H]. split; [now rewrite loop_length|].
    rewrite loop_EEPROM.
    destruct (save_due _ _); [|exact H].
    destruct Ha as [Ha | Ha].
    + now rewrite EEPROM_read_put_below by lia.
    + rewrite EEPROM_read_put_above; [exact H|].
      rewrite loop_buttons_length, Hl. unfold spos_size. lia.
Qed.

Lemma store_outside_record_untouched_witness :
  EEPROM_read 25 (EEPROM (run {[ 25 := 7 ]} [pass_up_twice; pass_quiet_late]))
  = 7.
Proof.
  rewrite (store_outside_record_untouched {[ 25 := 7 ]}
             [pass_up_twice; pass_quiet_late] 25) by (right; lia).
  reflexivity.
Defined.

(** X4: [setup] on an initialised store writes nothing and loads the table
    the store holds, unchecked. *)
Theorem setup_on_marked_store (e : gmap Z Z) :
  EEPROM_read 0 e = 0xA5 ->
  EEPROM (setup e) = e /\ spos (setup e) = EEPROM_get 1 spos_size e.
Proof.
  intros Hmn. rewrite (setup_marked e Hmn); cbv zeta. split; reflexivity.
Qed.

(** X5: started on a store without the marker, or with the marker and a
    table that satisfies the invariant, [setup] waits 2000 time-units and
    ends with the store and the table in agreement, the cursor on servo 0
    and slot 0, no change pending, and, after the wait, exactly one eased
    move started per servo, in order, each to the position of the slot
    that servo is on. *)
Theorem setup_starts_clean (e : gmap Z Z) :
  EEPROM_read 0 e <> 0xA5 \/ table_ok (EEPROM_get 1 spos_size e) = true ->
  let m := setup e in
  in_sync m /\ activeServo m = 0 /\ activePos m = 0 /\
  DirtyMarker m = None /\
  trace m = Delay 2000 :: resync (spos m) servos /\
  table_ok (spos m) = true.
Proof.
  intros He. cbv zeta.
  assert (Ht : table_ok (spos (setup e)) = true).
  { pose proof (wf_setup e He) as Hwf. apply wf_spec in Hwf as (Hp & Hs & _).
    unfold table_ok. now rewrite Hp, Hs. }
  revert Ht.
  destruct (Z.eq_dec (EEPROM_read 0 e) 0xA5) as [Hmn | Hmn].
  - rewrite (setup_marked e Hmn); cbv zeta. intros Ht.
    repeat split; try reflexivity. exact Ht.
  - rewrite (setup_fresh e Hmn); cbv zeta. intros Ht.
    split; [|repeat split; try reflexivity; exact Ht].
    unfold in_sync. cbn [spos EEPROM].
    change spos_size
      with (length (replicate 8 130 ++ replicate 8 50 ++ replicate 8 0)).
    apply EEPROM_get_put.
Qed.

Lemma setup_starts_clean_witness :
  trace (setup ∅)
  = Delay 2000 :: resync (replicate 8 130 ++ replicate 8 50 ++ replicate 8 0)
                         servos.
Proof.
  destruct (setup_starts_clean ∅) as (_ & _ & _ & _ & H & _).
  - left. vm_compute. discriminate.
  - rewrite H. vm_compute. reflexivity.
Defined.

Lemma setup_on_marked_store_witness :
  EEPROM_read 0 marker_only = 0xA5 /\
  EEPROM (setup marker_only) = marker_only.
Proof.
  assert (H : EEPROM_read 0 marker_only = 0xA5) by reflexivity.
  split; [exact H|].
  now destruct (setup_on_marked_store marker_only H) as [E _].
Defined.

(** X6: Power cycle: whenever no change is pending, restarting the sketch on
    the store as it is gives back the very table that was in memory, and
    writes nothing. *)
Theorem reboot_restores_table (e : gmap Z Z) (inps : list loop_input) :
  forallb all_stamps_ok inps = true ->
  lastchange (run e inps) = 0 ->
  let m := run e inps in
  spos (setup (EEPROM m)) = spos m /\ EEPROM (setup (EEPROM m)) = EEPROM m.
Proof.
  intros Hall H0 m. subst m.
  pose proof (run_marker e inps) as Hmn.
  rewrite (setup_marked _ Hmn); cbv zeta. cbn [spos EEPROM].
  split; [|reflexivity].
  destruct (synced_run e inps Hall) as [_ H]. exact (H H0).
Qed.

Lemma reboot_restores_table_witness :
  spos (setup (EEPROM (run ∅ [pass_up_twice; pass_quiet_late])))
  = spos (run ∅ [pass_up_twice; pass_quiet_late]).
Proof.
  assert (H1 : forallb all_stamps_ok [pass_up_twice; pass_quiet_late] = true)
    by (vm_compute; reflexivity).
  assert (H2 : lastchange (run ∅ [pass_up_twice; pass_quiet_late]) = 0)
    by (vm_compute; reflexivity).
  now destruct (reboot_restores_table ∅ _ H1 H2) as [E _].
Defined.

End RunStore.

(** ** The servo cursor *)

Section Cursor.

Lemma next_servo_range (a : Z) :
  0 <= (if uint8_t (a + 1) >=? nservos then 0 else uint8_t (a + 1)) < nservos.
Proof.
  pose proof (uint8_t_range (a + 1)).
  destruct (uint8_t (a + 1) >=? nservos) eqn:G.
  - unfold nservos. lia.
  - rewrite Z.geb_leb in G. apply Z.leb_gt in G. lia.
Qed.

(** [loop_preserves], asking of [emit] only what [loop] does with it. *)
Lemma loop_preserves_delay (P : machine -> Prop) (inp : loop_input) :
  (forall ev m d,
     In ev (map Increase (up_held inp) ++ map Decrease (down_held inp)) ->
     P m -> P (fst (edit_body ev (m, d)))) ->
  (forall now held m,
     nextservo_pressed inp = Some (now, held) ->
     P m -> P (loop_nextservo now held m)) ->
  (forall now m,
     nextposn_pressed inp = Some now -> P m -> P (loop_nextposn now m)) ->
  (forall m, P m -> P (loop_save (save_clock inp) m)) ->
  (forall c m,
     In c servos ->
     P m -> P (inputScan_body (pin_level inp) (scan_clock inp) c m)) ->
  (forall m, P m -> P (emit (Delay 100) m)) ->
  forall m, P m -> P (loop inp m).
Proof.
  intros P_edit P_srv P_pos P_save P_scan P_emit m Hm.
  rewrite loop_buttons_split.
  apply P_emit. unfold inputScan.
  apply for_each_preserve; [exact P_scan|].
  apply P_save. unfold loop_buttons.
  rewrite loop_up_edits.
  destruct (edits (map Increase (up_held inp)) (m, 200)) as [m1 d1] eqn:E1.
  rewrite loop_down_edits.
  destruct (edits (map Decrease (down_held inp)) (m1, d1)) as [m2 d2] eqn:E2.
  assert (H2 : P m2).
  { change m2 with (fst (m2, d2)). rewrite <- E2, <- E1, <- edits_app.
    apply edits_preserve; [exact P_edit | exact Hm]. }
  destruct (nextposn_pressed inp) as [now|] eqn:Epos;
    destruct (nextservo_pressed inp) as [[now' held]|] eqn:Esrv.
  - apply (P_pos now); [reflexivity|]. now apply (P_srv now' held).
  - now apply (P_pos now).
  - now apply (P_srv now' held).
  - exact H2.
Qed.

(** X7: started on a store without the marker, or with the marker and a
    table that satisfies the invariant, the cursor is valid in every state
    the sketch reaches: [activeServo] is the index of an existing servo
    (the value [nservos] written by the hold loop never survives the
    block), [activePos] is 0 or 1, and the byte [spos[activePos][activeServo]]
    that the up and down loops edit lies inside the array. *)
Theorem cursor_always_valid (e : gmap Z Z) (inps : list loop_input) :
  EEPROM_read 0 e <> 0xA5 \/ table_ok (EEPROM_get 1 spos_size e) = true ->
  let m := run e inps in
  0 <= activeServo m < nservos /\
  (activePos m = 0 \/ activePos m = 1) /\
  (cell (activePos m) (activeServo m) < length (spos m))%nat.
Proof.
  intros He. cbv zeta.
  pose proof (wf_run e inps He) as Hwf.
  apply wf_spec in Hwf as (Hp & _ & Hc).
  apply cursor_ok_spec in Hc as [Hs Ha].
  apply positions_ok_spec in Hp as [Hl _].
  split; [exact Hs | split; [exact Ha|]].
  apply cell_lt; [exact Hl | lia | exact Hs].
Qed.

Lemma cursor_always_valid_witness :
  0 <= activeServo (run ∅ [pass_next_servo 6000; pass_next_position 7000])
  < nservos.
Proof.
  destruct (cursor_always_valid ∅
              [pass_next_servo 6000; pass_next_position 7000]) as [H _].
  - left. vm_compute. discriminate.
  - exact H.
Defined.










(** X9: The next-position block leaves [activePos] on 0 or 1 whatever it was
    before, even a value that is no slot. *)
Theorem loop_nextposn_lands_on_slot (m : machine) (now : Z) :
  is_slot (activePos (loop_nextposn now m)) = true.
Proof.
  rewrite loop_nextposn_eq; cbv zeta. cbn [activePos].
  pose proof (uint8_t_range (activePos m + 1)) as R.
  apply is_slot_spec.
  destruct (uint8_t (activePos m + 1) >? 1) eqn:G; [now left|].
  rewrite Z.gtb_ltb in G. apply Z.ltb_ge in G. lia.
Qed.





End Cursor.

(** ** [inputScan] over all servos *)

Section ScanAll.

Variable level : Z -> bool.

Lemma digitalRead_bit (pin : Z) :
  digitalRead level pin = 0 \/ digitalRead level pin = 1.
Proof. unfold digitalRead. destruct (level pin); [now right | now left]. Qed.

(** Servos whose input agrees with their slot are passed over. *)
Lemma scan_noop (clock : Z -> Z) (l : list Z) (m : machine) :
  (forall c, In c l -> digitalRead level (pin_of c) = spos_at (spos m) 2 c) ->
  for_each (inputScan_body level clock) l m = m.
Proof.
  induction l as [|c l IH]; intros H; cbn [for_each]; [reflexivity|].
  assert (E : inputScan_body level clock c m = m).
  { rewrite inputScan_body_eq; cbv zeta.
    fold (pin_of c). rewrite (H c) by now left.
    now rewrite Z.eqb_refl. }
  rewrite E. apply IH. intros c' Hc'. apply H. now right.
Qed.

(** After its turn, a servo is on the slot its input reads. *)
Lemma scan_body_settles (clock : Z -> Z) (c : Z) (m : machine) :
  0 <= c < nservos -> length (spos m) = spos_size ->
  spos_at (spos m) 2 c = 0 \/ spos_at (spos m) 2 c = 1 ->
  spos_at (spos (inputScan_body level clock c m)) 2 c
  = digitalRead level (pin_of c).
Proof.
  intros Hc Hlen Hslot. rewrite inputScan_body_eq; cbv zeta.
  fold (pin_of c).
  destruct (digitalRead level (pin_of c) =? spos_at (spos m) 2 c) eqn:E;
    cbn [negb].
  - apply Z.eqb_eq in E. now symmetry.
  - apply Z.eqb_neq in E. cbn [spos].
    rewrite spos_at_upd_eq by (apply cell_lt; lia).
    destruct (digitalRead_bit (pin_of c)) as [D | D];
      destruct Hslot as [S | S]; rewrite S, D in *;
      try congruence; reflexivity.
Qed.

Lemma scan_settles (clock : Z -> Z) (l : list Z) :
  forall m,
    NoDup l -> (forall c, In c l -> 0 <= c < nservos) ->
    length (spos m) = spos_size ->
    (forall c, In c l ->
       spos_at (spos m) 2 c = 0 \/ spos_at (spos m) 2 c = 1) ->
    forall c, In c l ->
      spos_at (spos (for_each (inputScan_body level clock) l m)) 2 c
      = digitalRead level (pin_of c).
Proof.
  induction l as [|c0 l IH]; intros m Hnd Hl Hlen Hslots c Hc;
    [destruct Hc|].
  apply NoDup_cons in Hnd as [Hnot Hnd].
  rewrite list_elem_of_In in Hnot.
  assert (Hc0 : 0 <= c0 < nservos) by (apply Hl; now left).
  assert (Hl' : forall c, In c l -> 0 <= c < nservos).
  { intros c' Hc'. apply Hl. now right. }
  destruct (inputScan_body_frame level clock c0 m Hc0)
    as (B1 & _ & B3 & _).
  cbn [for_each]. destruct Hc as [<- | Hc].
  - destruct (inputScan_frame level clock l
                (inputScan_body level clock c0 m) Hl') as (_ & _ & A3 & _).
    destruct (A3 c0 Hc0 Hnot) as [-> _].
    apply scan_body_settles; try assumption. apply Hslots. now left.
  - apply IH; try assumption.
    + now rewrite B1.
    + intros c' Hc'.
      assert (c' <> c0) by (intros ->; contradiction).
      destruct (B3 c' (Hl' c' Hc')) as [-> _]; [assumption|].
      apply Hslots. now right.
Qed.

(** X11: After [inputScan] every servo is on the slot its input reads, and a
    second scan of the same inputs changes nothing at all: no slot, no
    command, no time stamp. *)
Theorem inputScan_settles (clock clock' : Z -> Z) (m : machine) :
  length (spos m) = spos_size ->
  slots_ok (spos m) = true ->
  let m' := inputScan level clock m in
  inputs_match level (spos m') = true /\
  inputScan level clock' m' = m'.
Proof.
  intros Hlen Hs m'.
  assert (H : forall c, In c servos ->
                digitalRead level (pin_of c) = spos_at (spos m') 2 c).
  { intros c Hc. symmetry. subst m'. unfold inputScan.
    apply scan_settles; try assumption.
    - unfold servos. apply NoDup_seqZ.
    - intros c' Hc'. now apply in_servos.
    - intros c' Hc'. apply (proj1 (slots_ok_spec _) Hs).
      now apply in_servos. }
  split.
  - unfold inputs_match. apply forallb_forall. intros c Hc.
    apply Z.eqb_eq. now apply H.
  - unfold inputScan at 1. now apply scan_noop.
Qed.

(** X12: A pass of [loop] with no button pressed, no save due and every input
    on the level of its servo's slot does nothing but wait 100
    time-units: no servo command, no write to the store, no change of
    the globals. *)
Theorem idle_pass (clk : Z) (clock : Z -> Z) (m : machine) :
  save_due clk m = false ->
  inputs_match level (spos m) = true ->
  loop (LoopInput [] [] None None clk level clock) m = emit (Delay 100) m.
Proof.
  intros Hsave Hin. rewrite loop_buttons_split.
  unfold loop_buttons. cbn.
  rewrite (loop_save_skip _ _ Hsave).
  unfold inputScan. rewrite scan_noop; [reflexivity|].
  intros c Hc. unfold inputs_match in Hin.
  rewrite forallb_forall in Hin. apply Z.eqb_eq. now apply Hin.
Qed.

End ScanAll.

Section ScanAllWitness.

Lemma inputScan_settles_witness :
  inputs_match (fun pin => pin =? 7)
    (spos (inputScan (fun pin => pin =? 7) (fun _ => 9000) edited_at_5000))
  = true.
Proof.
  now destruct (inputScan_settles (fun pin => pin =? 7) (fun _ => 9000)
                  (fun _ => 9100) edited_at_5000 eq_refl eq_refl) as [H _].
Defined.

Lemma idle_pass_witness :
  loop (LoopInput [] [] None None 6000 (fun _ => false) (fun _ => 6000))
       edited_at_5000
  = emit (Delay 100) edited_at_5000.
Proof.
  apply (idle_pass (fun _ => false) 6000 (fun _ => 6000) edited_at_5000);
    reflexivity.
Defined.

End ScanAllWitness.

(** ** Holding the up or the down button *)

Section Hold.

(** The cursor of a valid state points inside the table. *)
Lemma cursor_cell (m : machine) :
  cursor_ok m = true -> length (spos m) = spos_size ->
  (cell (activePos m) (activeServo m) < length (spos m))%nat
  /\ 0 <= activePos m < 3 /\ 0 <= activeServo m < nservos.
Proof.
  intros Hc Hlen. apply cursor_ok_spec in Hc as [Hs Ha].
  assert (0 <= activePos m < 3) by lia.
  split; [apply cell_lt; assumption | split; assumption].
Qed.

Lemma other_cell (m : machine) (r c : Z) :
  cursor_ok m = true -> 0 <= r < 3 -> 0 <= c < nservos ->
  r <> activePos m \/ c <> activeServo m ->
  cell (activePos m) (activeServo m) <> cell r c.
Proof.
  intros Hc Hr Hcc Hne E. apply cursor_ok_spec in Hc as [Hs Ha].
  apply cell_inj in E; lia.
Qed.

(** One turn, seen from the cell under the cursor. *)
Lemma edit_body_cell (ev : edit) (m : machine) (d : Z) :
  cursor_ok m = true -> length (spos m) = spos_size ->
  let v := spos_at (spos m) (activePos m) (activeServo m) in
  MINPOSN <= v <= MAXPOSN ->
  let m' := fst (edit_body ev (m, d)) in
  spos_at (spos m') (activePos m) (activeServo m)
  = match ev with
    | Increase _ => Z.min MAXPOSN (v + 1)
    | Decrease _ => Z.max MINPOSN (v - 1)
    end /\
  (forall r c, 0 <= r < 3 -> 0 <= c < nservos ->
     r <> activePos m \/ c <> activeServo m ->
     spos_at (spos m') r c = spos_at (spos m) r c).
Proof.
  intros Hc Hlen v Hv m'. subst m'.
  destruct (cursor_cell m Hc Hlen) as (Hcell & _ & _).
  unfold MINPOSN, MAXPOSN in *.
  destruct ev as [now | now]; cbn [edit_body].
  - rewrite loop_up_body_eq; cbv zeta. cbn [fst spos]. fold v.
    unfold MAXPOSN.
    destruct (v <? 180) eqn:E.
    + apply Z.ltb_lt in E. split.
      * rewrite spos_at_upd_eq by exact Hcell.
        rewrite uint8_t_small by lia. lia.
      * intros r c Hr Hcc Hne. apply spos_at_upd_ne.
        now apply other_cell.
    + apply Z.ltb_ge in E. split; [fold v; lia | reflexivity].
  - rewrite loop_down_body_eq; cbv zeta. cbn [fst spos]. fold v.
    unfold MINPOSN.
    destruct (v >? 0) eqn:E.
    + rewrite Z.gtb_ltb in E. apply Z.ltb_lt in E. split.
      * rewrite spos_at_upd_eq by exact Hcell.
        rewrite uint8_t_small by lia. lia.
      * intros r c Hr Hcc Hne. apply spos_at_upd_ne.
        now apply other_cell.
    + rewrite Z.gtb_ltb in E. apply Z.ltb_ge in E.
      split; [fold v; lia | reflexivity].
Qed.

Lemma held_up_cell (nows : list Z) :
  forall m d,
    cursor_ok m = true -> length (spos m) = spos_size ->
    let v := spos_at (spos m) (activePos m) (activeServo m) in
    MINPOSN <= v <= MAXPOSN ->
    let m' := fst (loop_up nows (m, d)) in
    spos_at (spos m') (activePos m) (activeServo m)
    = Z.min MAXPOSN (v + Z.of_nat (length nows)) /\
    (forall r c, 0 <= r < 3 -> 0 <= c < nservos ->
       r <> activePos m \/ c <> activeServo m ->
       spos_at (spos m') r c = spos_at (spos m) r c).
Proof.
  induction nows as [|now nows IH]; intros m d Hc Hlen v Hv m'; subst m'.
  - cbn. split; [fold v; lia | reflexivity].
  - unfold loop_up in *. cbn [while_held length].
    destruct (edit_body_cell (Increase now) m d Hc Hlen Hv) as [E1 E2].
    destruct (edit_body_cursor (Increase now) m d) as (C1 & C2 & _).
    cbn [edit_body] in *. fold v in E1.
    destruct (loop_up_body now (m, d)) as [m1 d1] eqn:E. cbn [fst] in *.
    assert (Hc1 : cursor_ok m1 = true).
    { unfold cursor_ok. now rewrite C1, C2. }
    assert (Hlen1 : length (spos m1) = spos_size).
    { pose proof (edits_length [Increase now] (m, d)) as L.
      cbn [edits edit_body fst] in L. rewrite E in L. cbn [fst] in L.
      congruence. }
    destruct (IH m1 d1 Hc1 Hlen1) as [I1 I2].
    { rewrite C1, C2, E1. unfold MINPOSN, MAXPOSN in *. lia. }
    rewrite C1, C2 in I1, I2. split.
    + rewrite I1, E1. unfold MAXPOSN in *. lia.
    + intros r c Hr Hcc Hne. rewrite I2 by assumption. now apply E2.
Qed.

Lemma held_down_cell (nows : list Z) :
  forall m d,
    cursor_ok m = true -> length (spos m) = spos_size ->
    let v := spos_at (spos m) (activePos m) (activeServo m) in
    MINPOSN <= v <= MAXPOSN ->
    let m' := fst (loop_down nows (m, d)) in
    spos_at (spos m') (activePos m) (activeServo m)
    = Z.max MINPOSN (v - Z.of_nat (length nows)) /\
    (forall r c, 0 <= r < 3 -> 0 <= c < nservos ->
       r <> activePos m \/ c <> activeServo m ->
       spos_at (spos m') r c = spos_at (spos m) r c).
Proof.
  induction nows as [|now nows IH]; intros m d Hc Hlen v Hv m'; subst m'.
  - cbn. split; [fold v; lia | reflexivity].
  - unfold loop_down in *. cbn [while_held length].
    destruct (edit_body_cell (Decrease now) m d Hc Hlen Hv) as [E1 E2].
    destruct (edit_body_cursor (Decrease now) m d) as (C1 & C2 & _).
    cbn [edit_body] in *. fold v in E1.
    destruct (loop_down_body now (m, d)) as [m1 d1] eqn:E. cbn [fst] in *.
    assert (Hc1 : cursor_ok m1 = true).
    { unfold cursor_ok. now rewrite C1, C2. }
    assert (Hlen1 : length (spos m1) = spos_size).
    { pose proof (edits_length [Decrease now] (m, d)) as L.
      cbn [edits edit_body fst] in L. rewrite E in L. cbn [fst] in L.
      congruence. }
    destruct (IH m1 d1 Hc1 Hlen1) as [I1 I2].
    { rewrite C1, C2, E1. unfold MINPOSN, MAXPOSN in *. lia. }
    rewrite C1, C2 in I1, I2. split.
    + rewrite I1, E1. unfold MINPOSN in *. lia.
    + intros r c Hr Hcc Hne. rewrite I2 by assumption. now apply E2.
Qed.

(** X13: Holding the up button for [n] turns adds [n] to the position under
    the cursor, stopping at [MAXPOSN]; holding the down button for [n]
    turns takes [n] off, stopping at [MINPOSN]; no other entry of the
    table, and in particular no slot, is changed. *)
Theorem held_button_reaches (nows : list Z) (m : machine) (d : Z) :
  cursor_ok m = true -> length (spos m) = spos_size ->
  let v := spos_at (spos m) (activePos m) (activeServo m) in
  MINPOSN <= v <= MAXPOSN ->
  let n := Z.of_nat (length nows) in
  let up := fst (loop_up nows (m, d)) in
  let down := fst (loop_down nows (m, d)) in
  spos_at (spos up) (activePos m) (activeServo m) = Z.min MAXPOSN (v + n) /\
  spos_at (spos down) (activePos m) (activeServo m) = Z.max MINPOSN (v - n) /\
  (forall r c, 0 <= r < 3 -> 0 <= c < nservos ->
     r <> activePos m \/ c <> activeServo m ->
     spos_at (spos up) r c = spos_at (spos m) r c /\
     spos_at (spos down) r c = spos_at (spos m) r c).
Proof.
  intros Hc Hlen v Hv n up down.
  destruct (held_up_cell nows m d Hc Hlen Hv) as [U1 U2].
  destruct (held_down_cell nows m d Hc Hlen Hv) as [D1 D2].
  split; [exact U1 | split; [exact D1|]].
  intros r c Hr Hcc Hne. split; [now apply U2 | now apply D2].
Qed.

Lemma held_button_reaches_witness :
  spos_at (spos (fst (loop_up (seqZ 6000 25)
                        (set_activeServo 3 edited_at_5000, 200)))) 0 3
  = 155 /\
  spos_at (spos (fst (loop_up (seqZ 6000 60)
                        (set_activeServo 3 edited_at_5000, 200)))) 0 3
  = 180.
Proof.
  split.
  - destruct (held_button_reaches (seqZ 6000 25)
                (set_activeServo 3 edited_at_5000) 200 eq_refl eq_refl)
      as [H _]; [vm_compute; split; discriminate | exact H].
  - destruct (held_button_reaches (seqZ 6000 60)
                (set_activeServo 3 edited_at_5000) 200 eq_refl eq_refl)
      as [H _]; [vm_compute; split; discriminate | exact H].
Defined.




End Hold.

(** ** The commands sent to the servos *)

Section Commands.

Lemma position_in_range (t : list Z) (r c : Z) :
  positions_ok t = true -> r = 0 \/ r = 1 -> 0 <= c < nservos ->
  in_range (spos_at t r c) = true.
Proof.
  intros Hp Hr Hc. apply in_range_spec.
  apply (proj1 (positions_ok_spec t) Hp); lia.
Qed.

Lemma command_ok_servo (s angle : Z) :
  0 <= s < nservos -> in_range angle = true ->
  command_ok (StartEaseTo s angle) = true
  /\ command_ok (ServoWrite s angle) = true.
Proof.
  intros [H1 H2] Ha. cbn [command_ok]. rewrite Ha.
  rewrite (proj2 (Z.leb_le 0 s)), (proj2 (Z.ltb_lt s nservos)) by assumption.
  now split.
Qed.

Lemma wf_table (m : machine) : wf m = true -> table_ok (spos m) = true.
Proof. unfold wf. intros H. now apply andb_true_iff in H as [Ht _]. Qed.

Lemma next_slot_bit (p : Z) :
  (if uint8_t (p + 1) >? 1 then 0 else uint8_t (p + 1)) = 0
  \/ (if uint8_t (p + 1) >? 1 then 0 else uint8_t (p + 1)) = 1.
Proof.
  pose proof (uint8_t_range (p + 1)) as R.
  destruct (uint8_t (p + 1) >? 1) eqn:G; [now left|].
  rewrite Z.gtb_ltb in G. apply Z.ltb_ge in G. lia.
Qed.

(** The move that puts a servo on its saved position. *)
Lemma saved_move_ok (t : list Z) (i : Z) :
  table_ok t = true -> 0 <= i < nservos ->
  command_ok (StartEaseTo i (spos_at t (spos_at t 2 i) i)) = true.
Proof.
  unfold table_ok. intros Ht Hi. apply andb_true_iff in Ht as [Hp Hs].
  apply command_ok_servo; [exact Hi|].
  apply position_in_range; try assumption.
  now apply (proj1 (slots_ok_spec t) Hs).
Qed.

Lemma resync_ok (t : list Z) (l : list Z) :
  table_ok t = true -> (forall i, In i l -> 0 <= i < nservos) ->
  forallb command_ok (resync t l) = true.
Proof.
  intros Ht Hl. apply forallb_forall. intros a Ha.
  unfold resync in Ha. apply in_map_iff in Ha as (i & <- & Hi).
  apply saved_move_ok; [exact Ht | now apply Hl].
Qed.

(** A state whose table and cursor are valid and whose log holds only
    commands the servos can carry out. *)
Lemma commands_kept (inp : loop_input) (m : machine) :
  wf m = true /\ forallb command_ok (trace m) = true ->
  wf (loop inp m) = true /\ forallb command_ok (trace (loop inp m)) = true.
Proof.
  apply (loop_preserves_delay
           (fun m => wf m = true /\ forallb command_ok (trace m) = true)).
  - intros ev m' d _ [Hwf Htr].
    pose proof (wf_edit_body ev m' d Hwf) as Hwf'.
    split; [exact Hwf'|].
    apply wf_spec in Hwf' as (Hp' & _ & Hc').
    apply cursor_ok_spec in Hc' as [Hs' Ha'].
    destruct (edit_body_cursor ev m' d) as (C1 & C2 & _).
    assert (Hok : command_ok
                    (ServoWrite (activeServo m')
                       (spos_at (spos (fst (edit_body ev (m', d))))
                                (activePos m') (activeServo m'))) = true).
    { rewrite <- C1, <- C2. apply command_ok_servo; [exact Hs'|].
      now apply position_in_range. }
    destruct ev as [now | now]; cbn [edit_body] in *.
    + rewrite loop_up_body_eq in *; cbv zeta in *. cbn [fst spos trace] in *.
      rewrite forallb_app, Htr. cbn [forallb]. rewrite Hok. reflexivity.
    + rewrite loop_down_body_eq in *; cbv zeta in *. cbn [fst spos trace] in *.
      rewrite forallb_app, Htr. cbn [forallb]. rewrite Hok. reflexivity.
  - intros now held m' _ [Hwf Htr].
    split; [now apply wf_loop_nextservo|].
    apply wf_spec in Hwf as (Hp & Hs & Hc).
    apply cursor_ok_spec in Hc as [Ha _].
    assert (Ht : table_ok (spos m') = true).
    { unfold table_ok. now rewrite Hp, Hs. }
    rewrite loop_nextservo_eq; cbv zeta. cbn [trace].
    rewrite forallb_app, Htr. cbn [forallb].
    rewrite (saved_move_ok _ _ Ht Ha).
    rewrite (saved_move_ok _ _ Ht (next_servo_range _)). reflexivity.
  - intros now m' _ [Hwf Htr].
    split; [now apply wf_loop_nextposn|].
    apply wf_spec in Hwf as (Hp & Hs & Hc).
    apply cursor_ok_spec in Hc as [Ha _].
    rewrite loop_nextposn_eq; cbv zeta. cbn [trace].
    rewrite forallb_app, Htr. cbn [forallb].
    destruct (command_ok_servo (activeServo m')
                (spos_at (spos m')
                   (if uint8_t (activePos m' + 1) >? 1 then 0
                    else uint8_t (activePos m' + 1)) (activeServo m')) Ha)
      as [-> _]; [|reflexivity].
    apply position_in_range; [exact Hp | apply next_slot_bit | exact Ha].
  - intros m' [Hwf Htr].
    split; [now apply wf_loop_save|].
    destruct (save_due (save_clock inp) m') eqn:E.
    + rewrite (loop_save_commit _ _ E). cbn [trace].
      rewrite forallb_app, Htr. cbn [andb].
      apply resync_ok.
      * now apply wf_table.
      * intros i Hi. now apply in_servos.
    + now rewrite (loop_save_skip _ _ E).
  - intros c m' Hc [Hwf Htr].
    pose proof (wf_inputScan_body (pin_level inp) (scan_clock inp) c m' Hc Hwf)
      as Hwf'.
    split; [exact Hwf'|].
    apply in_servos in Hc.
    rewrite inputScan_body_eq in *; cbv zeta in *.
    destruct (negb _); [|exact Htr].
    cbn [trace]. rewrite forallb_app, Htr. cbn [forallb].
    rewrite saved_move_ok; [reflexivity | | exact Hc].
    apply wf_table in Hwf'. exact Hwf'.
  - intros m' H. destruct H as [Hwf Htr]. split; [exact Hwf|].
    cbn [emit trace]. rewrite forallb_app, Htr. reflexivity.
Qed.

Lemma setup_commands (e : gmap Z Z) :
  EEPROM_read 0 e <> 0xA5 \/ table_ok (EEPROM_get 1 spos_size e) = true ->
  wf (setup e) = true /\ forallb command_ok (trace (setup e)) = true.
Proof.
  intros He.
  pose proof (wf_setup e He) as Hwf. split; [exact Hwf|].
  assert (Htr : trace (setup e)
                = Delay 2000 :: resync (spos (setup e)) servos).
  { destruct (Z.eq_dec (EEPROM_read 0 e) 0xA5) as [Hmn | Hmn].
    - rewrite (setup_marked e Hmn). reflexivity.
    - rewrite (setup_fresh e Hmn). reflexivity. }
  rewrite Htr. cbn [forallb command_ok andb]. apply resync_ok.
  - apply wf_table. exact Hwf.
  - intros i Hi. apply in_servos. exact Hi.
Qed.

Lemma run_commands (e : gmap Z Z) (inps : list loop_input) :
  EEPROM_read 0 e <> 0xA5 \/ table_ok (EEPROM_get 1 spos_size e) = true ->
  wf (run e inps) = true /\ forallb command_ok (trace (run e inps)) = true.
Proof.
  intros He.
  apply (run_induction
           (fun m => wf m = true /\ forallb command_ok (trace m) = true)).
  - apply setup_commands. exact He.
  - intros inp m H. apply commands_kept. exact H.
Qed.

(** X15: From a start on a missing marker or on a stored table that satisfies
    the invariant, every command the sketch ever sends names an existing
    servo and an angle between [MINPOSN] and [MAXPOSN]. *)
Theorem commands_always_in_range (e : gmap Z Z) (inps : list loop_input) :
  EEPROM_read 0 e <> 0xA5 \/ table_ok (EEPROM_get 1 spos_size e) = true ->
  forallb command_ok (trace (run e inps)) = true.
Proof.
  intros He.
  pose proof (run_commands e inps He) as [_ H]. exact H.
Qed.

Lemma commands_always_in_range_witness :
  forallb command_ok (trace (run ∅ [pass_up_twice; pass_quiet_late])) = true.
Proof.
  apply (commands_always_in_range ∅ [pass_up_twice; pass_quiet_late]).
  left. vm_compute. discriminate.
Defined.

End Commands.

(** ** The quiet period *)

Section Quiet.

(** X16: Every press of a button stamps the dirty marker with the time of the
    press, so that the save block stays off for the next 20000
    time-units: the quiet period starts again with each press, also with
    the presses that change no entry of the table. *)
Theorem buttons_restart_quiet_period (m : machine) (now : Z) :
  stamp_ok now = true -> stamp_window now ->
  let held_off (m' : machine) :=
    DirtyMarker m' = Some now /\
    forall now', now' - now <= 20000 -> loop_save now' m' = m' in
  (forall ev d, edit_stamp ev = now -> held_off (fst (edit_body ev (m, d))))
  /\ (forall held, held_off (loop_nextservo now held m))
  /\ held_off (loop_nextposn now m).
Proof.
  intros Hok Hw held_off.
  assert (H : forall m', lastchange m' = to_long now -> held_off m').
  { intros m' Hl. subst held_off. cbv beta.
    pose proof (DirtyMarker_stamp m' now Hok Hl) as Hd.
    split; [exact Hd|].
    intros now' Hle. apply loop_save_skip.
    apply not_true_is_false. intros E.
    apply (save_due_threshold m' now now' Hd Hw) in E. lia. }
  split; [|split].
  - intros ev d <-. apply H.
    destruct ev as [t | t]; cbn [edit_body edit_stamp].
    + now rewrite loop_up_body_eq.
    + now rewrite loop_down_body_eq.
  - intros held. apply H. now rewrite loop_nextservo_eq.
  - apply H. now rewrite loop_nextposn_eq.
Qed.

Lemma buttons_restart_quiet_period_witness :
  DirtyMarker (loop_nextposn 9000 edited_at_5000) = Some 9000 /\
  loop_save 29000 (loop_nextposn 9000 edited_at_5000)
  = loop_nextposn 9000 edited_at_5000.
Proof.
  assert (Hw : stamp_window 9000) by (unfold stamp_window; lia).
  destruct (buttons_restart_quiet_period edited_at_5000 9000 eq_refl Hw)
    as (_ & _ & Hd & Hs).
  split; [exact Hd | apply Hs; lia].
Defined.

End Quiet.

(** ** Which servo an edit drives *)

Section EditDrives.

Lemma edit_body_moves (ev : edit) (m : machine) (d : Z) (s : Z) :
  moves_of s (trace (fst (edit_body ev (m, d)))) =
  moves_of s (trace m)
  ++ (if activeServo m =? s
      then [ServoWrite (activeServo m)
              (spos_at (spos (fst (edit_body ev (m, d))))
                       (activePos m) (activeServo m))]
      else []).
Proof.
  destruct ev as [now | now]; cbn [edit_body].
  - rewrite loop_up_body_eq; cbv zeta. cbn [fst trace spos].
    rewrite moves_of_app. cbn [moves_of List.filter about_servo].
    now destruct (activeServo m =? s).
  - rewrite loop_down_body_eq; cbv zeta. cbn [fst trace spos].
    rewrite moves_of_app. cbn [moves_of List.filter about_servo].
    now destruct (activeServo m =? s).
Qed.

(** X17: Turns of the up and down loops drive the servo under the cursor and
    no other: each turn sends it exactly one command, and the commands
    sent to every other servo are those sent before. *)
Theorem edits_drive_active_servo_only (es : list edit) (m : machine)
    (d : Z) :
  let m' := fst (edits es (m, d)) in
  (forall s, s <> activeServo m ->
     moves_of s (trace m') = moves_of s (trace m)) /\
  length (moves_of (activeServo m) (trace m'))
  = (length (moves_of (activeServo m) (trace m)) + length es)%nat.
Proof.
  cbv zeta. revert m d.
  induction es as [|ev es IH]; intros m d; cbn [edits fst].
  - split; [reflexivity | change (length (@nil edit)) with 0%nat; lia].
  - destruct (edit_body_cursor ev m d) as (C1 & _).
    pose proof (edit_body_moves ev m d) as Hm.
    destruct (edit_body ev (m, d)) as [m1 d1]. cbn [fst] in *.
    destruct (IH m1 d1) as [I1 I2]. rewrite C1 in I1, I2. split.
    + intros s Hs. rewrite I1 by exact Hs. rewrite Hm.
      rewrite (proj2 (Z.eqb_neq (activeServo m) s)) by congruence.
      apply app_nil_r.
    + rewrite I2, Hm, Z.eqb_refl, length_app.
      change (length (ev :: es)) with (S (length es)).
      change (length [?a]) with 1%nat. lia.
Qed.

Lemma edits_drive_active_servo_only_witness :
  moves_of 5 (trace (fst (edits [Increase 6000; Decrease 6200]
                            (edited_at_5000, 200)))) = [].
Proof.
  destruct (edits_drive_active_servo_only [Increase 6000; Decrease 6200]
              edited_at_5000 200) as [H _].
  rewrite H; [reflexivity | vm_compute; discriminate].
Defined.

End EditDrives.
